(** * gh::BigInteger (BigInteger.hpp): a shallow embedding and its properties

    The class stores a sign flag and a [vector<char>] of decimal digit
    characters, least significant first.  Every member function of
    BigInteger.hpp that the properties below are about is transcribed
    here: a [const] member becomes a function of the object, a mutating
    member a function returning the new object, the [throw] of
    [change_digit] a constructor of [result], and the recursion among the
    compound assignments a fixpoint over a call-depth budget. *)

From Stdlib Require Import ZArith Lia Bool Ascii String.
From Stdlib Require DecimalString DecimalZ DecimalPos DecimalFacts.
From stdpp Require Import base list strings.

Local Open Scope Z_scope.

(** ** Native types *)

(** [int] is 32 bits wide.  Signed overflow is undefined in C++; the model
    takes the two's-complement wrap-around of the usual targets. *)
Definition INT_MIN : Z := - 2 ^ 31.
Definition INT_MAX : Z := 2 ^ 31 - 1.
Definition int_wrap (z : Z) : Z := (z + 2 ^ 31) mod 2 ^ 32 - 2 ^ 31.

(** [char] is a signed byte; [to_char v] is the conversion [char(v)]. *)
Definition to_char (v : Z) : Z := (v + 128) mod 256 - 128.

(** The character constants of the source. *)
Definition chr_0 : Z := 48.
Definition chr_minus : Z := 45.
Definition chr_underscore : Z := 95.

Definition ascii_of_char (c : Z) : ascii := ascii_of_N (Z.to_N (c mod 256)).
Definition char_of_ascii (a : ascii) : Z := to_char (Z.of_N (N_of_ascii a)).

(** [std::string::push_back] *)
Definition push_back (res : string) (c : Z) : string :=
  res +:+ String (ascii_of_char c) EmptyString.

(** What [c_str()] shows to [strlen] and to indexing: the characters before
    the first NUL. *)
Fixpoint c_str (s : string) : list Z :=
  match s with
  | EmptyString => []
  | String a s' =>
      if (char_of_ascii a =? 0) then [] else char_of_ascii a :: c_str s'
  end.

(** [std::to_string(int)], used for the text thrown by [change_digit]. *)
Fixpoint decimal_digits (n : nat) (v : Z) (acc : string) : string :=
  match n with
  | O => acc
  | S n' =>
      let acc' := String (ascii_of_char (chr_0 + v mod 10)) acc in
      if v / 10 =? 0 then acc' else decimal_digits n' (v / 10) acc'
  end.

Definition std_to_string (v : Z) : string :=
  if v <? 0
  then String "-"%char (decimal_digits 10 (- v) EmptyString)
  else decimal_digits 10 v EmptyString.

(** ** Results of calls *)

(** A call returns, throws the text built in [change_digit], or has not
    returned within the call-depth budget it was given. *)
Inductive result (A : Type) : Type :=
| Ok (a : A)
| Throw (msg : string)
| OutOfFuel.
Arguments Ok {A} a.
Arguments Throw {A} msg.
Arguments OutOfFuel {A}.

Definition bind {A B : Type} (m : result A) (k : A -> result B) : result B :=
  match m with
  | Ok a => k a
  | Throw msg => Throw msg
  | OutOfFuel => OutOfFuel
  end.

Notation "'let*' x ':=' m 'in' k" := (bind m (fun x => k))
  (at level 10, x pattern, m at level 100, k at level 200).

(** ** Loops *)

(** [for (int i = start; ...; ++i) body], run [n] times; the body may
    throw or fail to return. *)
Fixpoint for_up {St : Type} (n : nat) (i : Z)
    (body : Z -> St -> result St) (s : St) : result St :=
  match n with
  | O => Ok s
  | S n' => let* s' := body i s in for_up n' (i + 1) body s'
  end.

(** The same with a body that always returns. *)
Fixpoint for_up_pure {St : Type} (n : nat) (i : Z)
    (body : Z -> St -> St) (s : St) : St :=
  match n with
  | O => s
  | S n' => for_up_pure n' (i + 1) body (body i s)
  end.

(** [for (int i = k - 1; i >= 0; --i) body] *)
Fixpoint for_down {St : Type} (k : nat) (body : Z -> St -> St) (s : St) : St :=
  match k with
  | O => s
  | S k' => for_down k' body (body (Z.of_nat k') s)
  end.

(** ** The class *)

Definition BASE : Z := 10.

Inductive Sign : Type := POSITIVE | NEGATIVE.

Definition Sign_eqb (a b : Sign) : bool :=
  match a, b with
  | POSITIVE, POSITIVE | NEGATIVE, NEGATIVE => true
  | _, _ => false
  end.

Record BigInteger : Type := mkBigInteger {
  m_sign : Sign;
  m_data : list Z   (* vector<char>: character codes, index 0 least significant *)
}.

Definition set_sign (this : BigInteger) (s : Sign) : BigInteger :=
  mkBigInteger s (m_data this).

Definition is_positive (this : BigInteger) : bool :=
  Sign_eqb (m_sign this) POSITIVE.

Definition is_negative (this : BigInteger) : bool :=
  Sign_eqb (m_sign this) NEGATIVE.

Definition count (this : BigInteger) : Z := Z.of_nat (length (m_data this)).

Definition push_digit (this : BigInteger) (val : Z) : BigInteger :=
  mkBigInteger (m_sign this) (m_data this ++ [to_char (val + chr_0)]).

Definition in_range (this : BigInteger) (pos : Z) : bool :=
  (0 <=? pos) && (pos <? count this).

Definition change_digit (this : BigInteger) (pos val : Z) : result BigInteger :=
  if in_range this pos
  then Ok (mkBigInteger (m_sign this)
             (<[Z.to_nat pos := to_char (val + chr_0)]> (m_data this)))
  else Throw ("Invalid position : " +:+ std_to_string pos).

Definition get_digit (this : BigInteger) (pos : Z) : Z :=
  if in_range this pos
  then match m_data this !! Z.to_nat pos with
       | Some c => c - chr_0
       | None => 0
       end
  else 0.

Definition pop_back (this : BigInteger) : BigInteger :=
  mkBigInteger (m_sign this) (removelast (m_data this)).

(** *** Constructors *)

(** [BigInteger()] *)
Definition BigInteger_default : BigInteger := mkBigInteger POSITIVE [].

(** The loop [while (num) { push_digit(num % BASE); num /= 10; }].  An
    [int] has at most ten decimal digits, so the counter starts at ten;
    [int_loop_spec] below shows that the loop always stops on [num == 0]
    and never on the counter.  [/] and [%] truncate towards zero. *)
Fixpoint int_loop (n : nat) (num : Z) (this : BigInteger) : BigInteger :=
  match n with
  | O => this
  | S n' =>
      if num =? 0 then this
      else int_loop n' (Z.quot num 10) (push_digit this (Z.rem num BASE))
  end.

(** [BigInteger(int num)] *)
Definition BigInteger_int (num : Z) : BigInteger :=
  let this := mkBigInteger POSITIVE [] in
  if num <? 0
  then int_loop 10 (int_wrap (num * -1)) (set_sign this NEGATIVE)
  else int_loop 10 num this.

(** [parse]: sets the sign of [this] on a leading minus and returns the
    characters that are not underscores. *)
Definition parse (this : BigInteger) (str : list Z) : BigInteger * list Z :=
  let len := Z.of_nat (length str) in
  let '(this, iter) :=
    if default 0 (str !! 0%nat) =? chr_minus
    then (set_sign this NEGATIVE, 1)
    else (this, 0) in
  let res :=
    for_up_pure (Z.to_nat (len - iter)) iter
      (fun i res =>
         let c := default 0 (str !! Z.to_nat i) in
         if c =? chr_underscore then res else res ++ [c])
      [] in
  (this, res).

(** [BigInteger(const char *num)] *)
Definition BigInteger_cstr (num : list Z) : BigInteger :=
  let this := mkBigInteger POSITIVE [] in
  let '(this, filtered) := parse this num in
  for_down (length filtered)
    (fun i this =>
       let digit := default 0 (filtered !! Z.to_nat i) - chr_0 in
       push_digit this digit)
    this.

(** [BigInteger(const string &num)] *)
Definition BigInteger_string (num : string) : BigInteger :=
  BigInteger_cstr (c_str num).

(** *** Rendering *)

Definition to_string (this : BigInteger) : string :=
  let res := EmptyString in
  let res := if is_negative this then push_back res chr_minus else res in
  let len := count this in
  let res :=
    for_down (Z.to_nat len)
      (fun i res => push_back res (to_char (get_digit this i + chr_0)))
      res in
  if (String.length res =? 0)%nat then "0"%string else res.

(** *** normalize *)

Fixpoint normalize_loop (k : nat) (this : BigInteger) : BigInteger :=
  match k with
  | O => this
  | S k' =>
      if negb (get_digit this (Z.of_nat k') =? 0) then this
      else normalize_loop k'
             (if (length (m_data this) =? 0)%nat then this else pop_back this)
  end.

Definition normalize (this : BigInteger) : BigInteger :=
  let len := count this in
  normalize_loop (Z.to_nat len) this.

(** *** Comparison *)

Fixpoint equal_loop (n : nat) (i : Z) (this rhs : BigInteger) : bool :=
  match n with
  | O => true
  | S n' =>
      if negb (get_digit this i =? get_digit rhs i) then false
      else equal_loop n' (i + 1) this rhs
  end.

Definition equal (this rhs : BigInteger) : bool :=
  let l_size := count this in
  let r_size := count rhs in
  let l_sign := m_sign this in
  let r_sign := m_sign rhs in
  if negb (l_size =? r_size) || negb (Sign_eqb l_sign r_sign) then false
  else equal_loop (Z.to_nat l_size) 0 this rhs.

Fixpoint less_than_loop (k : nat) (this rhs : BigInteger) : bool :=
  match k with
  | O => false
  | S k' =>
      let i := Z.of_nat k' in
      if get_digit this i <? get_digit rhs i then is_positive this
      else if get_digit this i >? get_digit rhs i then is_negative this
      else less_than_loop k' this rhs
  end.

Definition less_than (this rhs : BigInteger) : bool :=
  let l_size := count this in
  let r_size := count rhs in
  let l_sign := m_sign this in
  let r_sign := m_sign rhs in
  if negb (Sign_eqb l_sign r_sign) then is_negative this
  else if negb (l_size =? r_size)
  then ((l_size <? r_size) && is_positive this)
       || ((l_size >? r_size) && is_negative this)
  else less_than_loop (Z.to_nat l_size) this rhs.

(** The friend operators. *)
Definition op_eq (lhs rhs : BigInteger) : bool := equal lhs rhs.
Definition op_ne (lhs rhs : BigInteger) : bool := negb (op_eq lhs rhs).
Definition op_lt (lhs rhs : BigInteger) : bool := less_than lhs rhs.
Definition op_le (lhs rhs : BigInteger) : bool := op_eq lhs rhs || op_lt lhs rhs.
Definition op_gt (lhs rhs : BigInteger) : bool := op_lt rhs lhs.
(** [return (lhs == rhs) || (rhs > rhs);] *)
Definition op_ge (lhs rhs : BigInteger) : bool := op_eq lhs rhs || op_gt rhs rhs.

(** [operator<<] *)
Definition op_output (os : string) (rhs : BigInteger) : string :=
  os +:+ to_string rhs.


(** ** Arithmetic *)

(** One turn of the digit loop of [operator+=]; [l_size] is the length of
    [this] at the entry of the loop. *)
Definition add_step (l_size : Z) (rhs : BigInteger) (i : Z)
    (st : BigInteger * Z) : result (BigInteger * Z) :=
  let '(this, carry) := st in
  let sum := get_digit this i + get_digit rhs i + carry in
  let carry := Z.quot sum BASE in
  let sum := Z.rem sum BASE in
  if i <? l_size
  then let* this := change_digit this i sum in Ok (this, carry)
  else Ok (push_digit this sum, carry).

(** The digit loop of [operator+=] and the push of the last carry. *)
Definition add_digits (this rhs : BigInteger) : result BigInteger :=
  let l_size := count this in
  let r_size := count rhs in
  let* (this, carry) :=
    for_up (Z.to_nat (Z.max l_size r_size)) 0 (add_step l_size rhs) (this, 0) in
  Ok (if negb (carry =? 0) then push_digit this carry else this).

(** One turn of the digit loop of [operator-=]. *)
Definition sub_step (rhs : BigInteger) (i : Z) (st : BigInteger * Z)
    : result (BigInteger * Z) :=
  let '(this, borrow) := st in
  let diff := get_digit this i - get_digit rhs i - borrow in
  let '(diff, borrow) := if diff <? 0 then (diff + 10, 1) else (diff, 0) in
  let* this := change_digit this i diff in
  Ok (this, borrow).

(** The digit loop of [operator-=] and the [normalize] after it.  The
    bound [i < count()] is read at every turn in the source; [change_digit]
    keeps the length ([change_digit_count]), so it is read once here. *)
Definition sub_digits (this rhs : BigInteger) : result BigInteger :=
  let* (this, borrow) :=
    for_up (Z.to_nat (count this)) 0 (sub_step rhs) (this, 0) in
  Ok (normalize this).

(** One turn of the digit loop of [operator*=(const int &)]. *)
Definition scale_step (num : Z) (i : Z) (st : BigInteger * Z)
    : result (BigInteger * Z) :=
  let '(this, carry) := st in
  let product := num * get_digit this i + carry in
  let carry := Z.quot product BASE in
  let* this := change_digit this i (Z.rem product BASE) in
  Ok (this, carry).

(** The digit loop of [operator*=(const int &)], the push of the last
    carry and the sign. *)
Definition scale_digits (this : BigInteger) (num : Z) : result BigInteger :=
  let negate_it := is_negative this && (num >? 0) in
  let len := count this in
  let* (this, carry) :=
    for_up (Z.to_nat len) 0 (scale_step num) (this, 0) in
  let this := if negb (carry =? 0) then push_digit this carry else this in
  Ok (if negate_it then set_sign this NEGATIVE else this).

(** One turn of the loop of [operator*=(const BigInteger &)]:
    [sum += lhs * rhs.get_digit(i); lhs *= 10;], over the calls
    [mul_int] for [*=(int)] and [add] for [+=] on distinct objects. *)
Definition mul_step
    (mul_int : BigInteger -> Z -> result BigInteger)
    (add : BigInteger -> BigInteger -> result BigInteger)
    (rhs : BigInteger) (i : Z) (st : BigInteger * BigInteger)
    : result (BigInteger * BigInteger) :=
  let '(lhs, sum) := st in
  let* t := mul_int lhs (get_digit rhs i) in
  let* sum := add sum t in
  let* lhs := mul_int lhs 10 in
  Ok (lhs, sum).

(** The four compound assignments call one another; [fuel] bounds the
    depth of these calls, and [OutOfFuel] is the answer of a call that
    needs more.  [same] is the test [this == &rhs].  The temporaries
    [rhs * -1], [rhs - *this] and [lhs * digit] go through the binary
    operators of the source, which copy the left operand and apply the
    compound assignment to the copy. *)
Fixpoint op_add_assign (fuel : nat) (same : bool) (this rhs : BigInteger)
    {struct fuel} : result BigInteger :=
  match fuel with
  | O => OutOfFuel
  | S f =>
      if same then op_mul_int_assign f this 2
      else if negb (eqb (is_positive this) (is_positive rhs)) then
        let* t := op_mul_int_assign f rhs (-1) in
        op_sub_assign f false this t
      else add_digits this rhs
  end
with op_sub_assign (fuel : nat) (same : bool) (this rhs : BigInteger)
    {struct fuel} : result BigInteger :=
  match fuel with
  | O => OutOfFuel
  | S f =>
      if same then Ok (BigInteger_int 0)
      else if negb (eqb (is_negative this) (is_negative rhs)) then
        let* t := op_mul_int_assign f rhs (-1) in
        op_add_assign f false this t
      else if (is_positive this && op_lt this rhs)
              || (is_negative this && op_gt this rhs) then
        let* this := op_sub_assign f false rhs this in
        Ok (if is_positive this
            then set_sign this NEGATIVE
            else set_sign this POSITIVE)
      else sub_digits this rhs
  end
with op_mul_assign (fuel : nat) (this rhs : BigInteger)
    {struct fuel} : result BigInteger :=
  match fuel with
  | O => OutOfFuel
  | S f =>
      let negate_it := negb (Sign_eqb (m_sign this) (m_sign rhs)) in
      let lhs := this in
      let sum := BigInteger_int 0 in
      let len := count rhs in
      let* (lhs, sum) :=
        for_up (Z.to_nat len) 0
          (mul_step (op_mul_int_assign f) (op_add_assign f false) rhs)
          (lhs, sum) in
      let this := sum in
      Ok (if negate_it then set_sign this NEGATIVE else this)
  end
with op_mul_int_assign (fuel : nat) (this : BigInteger) (num : Z)
    {struct fuel} : result BigInteger :=
  match fuel with
  | O => OutOfFuel
  | S f =>
      if num =? 0 then Ok (BigInteger_int 0)
      else if num =? 1 then Ok this
      else if (BASE <? num) || (num <? 0)
      then op_mul_assign f this (BigInteger_int num)
      else scale_digits this num
  end.

(** The binary operators: [auto res = *this; res op= rhs; return res;].
    The copy is never the object [rhs]. *)
Definition op_add (fuel : nat) (this rhs : BigInteger) : result BigInteger :=
  op_add_assign fuel false this rhs.
Definition op_sub (fuel : nat) (this rhs : BigInteger) : result BigInteger :=
  op_sub_assign fuel false this rhs.
Definition op_mul (fuel : nat) (this rhs : BigInteger) : result BigInteger :=
  op_mul_assign fuel this rhs.
Definition op_mul_int (fuel : nat) (this : BigInteger) (num : Z)
    : result BigInteger :=
  op_mul_int_assign fuel this num.

(** ** Vocabulary of the properties *)

(** A call that ends in the [throw] of [change_digit]. *)
Definition throws {A : Type} (r : result A) : Prop :=
  exists msg, r = Throw msg.

(** [approx r1 r2]: [r2] is the answer [r1], or [r1] is a call that ran out
    of call depth. *)
Definition approx {A : Type} (r1 r2 : result A) : Prop :=
  r1 = OutOfFuel \/ r1 = r2.

(** A stored character that is one of '0'..'9'. *)
Definition digit_okb (c : Z) : bool := (chr_0 <=? c) && (c <=? chr_0 + 9).
Definition digit_ok (c : Z) : Prop := chr_0 <= c <= chr_0 + 9.

(** The digit-range invariant of the class. *)
Definition digits_ok (this : BigInteger) : Prop :=
  forallb digit_okb (m_data this) = true.

(** The number a digit sequence stands for, least significant first. *)
Fixpoint magnitude_of (l : list Z) : Z :=
  match l with
  | [] => 0
  | c :: l' => (c - chr_0) + BASE * magnitude_of l'
  end.

Definition magnitude (this : BigInteger) : Z := magnitude_of (m_data this).

Definition value (this : BigInteger) : Z :=
  match m_sign this with
  | POSITIVE => magnitude this
  | NEGATIVE => - magnitude this
  end.

(** The canonical decimal text of a number: the standard library's
    printer of decimal numerals, a minus sign before the digits of a
    negative number, "0" for zero, no leading zero. *)
Definition canonical_text (n : Z) : string :=
  DecimalString.NilZero.string_of_int (Z.to_int n).

(** A stored digit sequence as a numeral of the standard library, least
    significant digit outermost. *)
Definition lu_digit (c : Z) (d : Decimal.uint) : Decimal.uint :=
  if c =? 48 then Decimal.D0 d
  else if c =? 49 then Decimal.D1 d
  else if c =? 50 then Decimal.D2 d
  else if c =? 51 then Decimal.D3 d
  else if c =? 52 then Decimal.D4 d
  else if c =? 53 then Decimal.D5 d
  else if c =? 54 then Decimal.D6 d
  else if c =? 55 then Decimal.D7 d
  else if c =? 56 then Decimal.D8 d
  else Decimal.D9 d.

Fixpoint lu_of (l : list Z) : Decimal.uint :=
  match l with
  | [] => Decimal.Nil
  | c :: l' => lu_digit c (lu_of l')
  end.

(** The characters of a list, in order, as a string. *)
Fixpoint text_of (l : list Z) : string :=
  match l with
  | [] => EmptyString
  | c :: l' => String (ascii_of_char c) (text_of l')
  end.

(** No leading zero digit: the most significant stored digit, when there is
    one, is not 0. *)
Definition normalized (this : BigInteger) : bool :=
  match last (m_data this) with
  | None => true
  | Some c => negb (c - chr_0 =? 0)
  end.

(** The invariants of the class together: decimal digits only, no leading
    zero, and the POSITIVE flag when there is no digit. *)
Definition well_formedb (this : BigInteger) : bool :=
  forallb digit_okb (m_data this)
  && normalized this
  && (negb (length (m_data this) =? 0)%nat || is_positive this).

Definition well_formed (this : BigInteger) : Prop := well_formedb this = true.

(** The digit a sequence shows at its first position, 0 when it has none
    (what [get_digit] reads at the end of the stored digits). *)
Definition head_digit (l : list Z) : Z :=
  match l with
  | [] => 0
  | c :: _ => c - chr_0
  end.

(** The shape of what the digit loops of [+=] and [*=(int)] leave: [n]
    digits and, when the last carry is not 0, that carry as one more
    digit, standing together for the number [M]. *)
Definition carried (n : nat) (M : Z) (l : list Z) : Prop :=
  exists out carry,
    l = out ++ (if carry =? 0 then [] else [carry + chr_0])
    /\ length out = n
    /\ Forall digit_ok out
    /\ 0 <= carry <= 9
    /\ magnitude_of out + BASE ^ Z.of_nat n * carry = M.

(** A value of the type [char]. *)
Definition is_char (c : Z) : Prop := -128 <= c < 128.

(** The characters of a text that [parse] keeps. *)
Definition without_underscores (l : list Z) : list Z :=
  List.filter (fun c => negb (c =? chr_underscore)) l.

(** A text with at least one character, none of them NUL or an
    underscore. *)
Fixpoint plain_chars (s : string) : bool :=
  match s with
  | EmptyString => true
  | String a s' =>
      negb (char_of_ascii a =? 0) && negb (char_of_ascii a =? chr_underscore)
      && plain_chars s'
  end.

Definition plain_text (s : string) : bool :=
  negb (String.length s =? 0)%nat && plain_chars s.

(** * Properties *)

(** ** The example program *)

(** main.cpp: [x = "100_200_100"], [y = "300_200_100"], and the three
    lines it prints. *)
Example main_plus :
  bind (op_add 4 (BigInteger_string "100_200_100")
                 (BigInteger_string "300_200_100"))
       (fun r => Ok (to_string r))
  = Ok "400400200"%string.
Proof. reflexivity. Qed.

Example main_minus :
  bind (op_sub 4 (BigInteger_string "100_200_100")
                 (BigInteger_string "300_200_100"))
       (fun r => Ok (to_string r))
  = Ok "-200000000"%string.
Proof. reflexivity. Qed.

Example main_star :
  bind (op_mul 4 (BigInteger_string "100_200_100")
                 (BigInteger_string "300_200_100"))
       (fun r => Ok (to_string r))
  = Ok "30080080040010000"%string.
Proof. vm_compute. reflexivity. Qed.

(** ** Unfolding equations *)

Lemma op_add_assign_S f same this rhs :
  op_add_assign (S f) same this rhs =
    if same then op_mul_int_assign f this 2
    else if negb (eqb (is_positive this) (is_positive rhs)) then
      let* t := op_mul_int_assign f rhs (-1) in
      op_sub_assign f false this t
    else add_digits this rhs.
Proof. reflexivity. Qed.

Lemma op_sub_assign_S f same this rhs :
  op_sub_assign (S f) same this rhs =
    if same then Ok (BigInteger_int 0)
    else if negb (eqb (is_negative this) (is_negative rhs)) then
      let* t := op_mul_int_assign f rhs (-1) in
      op_add_assign f false this t
    else if (is_positive this && op_lt this rhs)
            || (is_negative this && op_gt this rhs) then
      let* this := op_sub_assign f false rhs this in
      Ok (if is_positive this
          then set_sign this NEGATIVE
          else set_sign this POSITIVE)
    else sub_digits this rhs.
Proof. reflexivity. Qed.

Lemma op_mul_assign_S f this rhs :
  op_mul_assign (S f) this rhs =
    let* (lhs, sum) :=
      for_up (Z.to_nat (count rhs)) 0
        (mul_step (op_mul_int_assign f) (op_add_assign f false) rhs)
        (this, BigInteger_int 0) in
    Ok (if negb (Sign_eqb (m_sign this) (m_sign rhs))
        then set_sign sum NEGATIVE else sum).
Proof. reflexivity. Qed.

Lemma op_mul_int_assign_S f this num :
  op_mul_int_assign (S f) this num =
    if num =? 0 then Ok (BigInteger_int 0)
    else if num =? 1 then Ok this
    else if (BASE <? num) || (num <? 0)
    then op_mul_assign f this (BigInteger_int num)
    else scale_digits this num.
Proof. reflexivity. Qed.

(** ** Negating a negative value never returns *)

Lemma zero_is_positive : is_positive (BigInteger_int 0) = true.
Proof. reflexivity. Qed.

Lemma negative_not_positive this :
  m_sign this = NEGATIVE -> is_positive this = false.
Proof. unfold is_positive. now intros ->. Qed.

(** [x * -1] with [x] negative: [operator*=(int)] promotes [-1] to a
    BigInteger, [operator*=(BigInteger)] adds [x * 1 = x] to the positive
    accumulator, and that addition, the signs differing, asks for [x * -1]
    again. *)
Lemma negate_negative_diverges fuel :
  forall this, m_sign this = NEGATIVE ->
    op_mul_int_assign fuel this (-1) = OutOfFuel.
Proof.
  induction fuel as [fuel IH] using lt_wf_ind. intros this Hneg.
  destruct fuel as [|f]; [reflexivity|].
  rewrite op_mul_int_assign_S. cbn [Z.eqb Z.ltb Z.compare BASE orb].
  destruct f as [|f]; [reflexivity|].
  rewrite op_mul_assign_S.
  change (Z.to_nat (count (BigInteger_int (-1)))) with 1%nat.
  cbn [for_up]. unfold mul_step at 1.
  change (get_digit (BigInteger_int (-1)) 0) with 1.
  destruct f as [|f]; [reflexivity|].
  rewrite op_mul_int_assign_S. cbn [Z.eqb Pos.eqb bind].
  rewrite op_add_assign_S.
  rewrite zero_is_positive, (negative_not_positive _ Hneg).
  cbn [eqb negb].
  rewrite IH; [reflexivity | lia | exact Hneg].
Qed.

Lemma add_positive_negative_diverges fuel this rhs :
  is_positive this = true -> m_sign rhs = NEGATIVE ->
  op_add_assign fuel false this rhs = OutOfFuel.
Proof.
  intros Hp Hn. destruct fuel as [|f]; [reflexivity|].
  rewrite op_add_assign_S, Hp, (negative_not_positive _ Hn).
  cbn [eqb negb]. now rewrite negate_negative_diverges.
Qed.

Lemma sub_positive_negative_diverges fuel this rhs :
  is_positive this = true -> m_sign rhs = NEGATIVE ->
  op_sub_assign fuel false this rhs = OutOfFuel.
Proof.
  intros Hp Hn. destruct fuel as [|f]; [reflexivity|].
  rewrite op_sub_assign_S.
  assert (is_negative this = false) as ->
    by (unfold is_positive, is_negative in *; destruct (m_sign this); easy).
  assert (is_negative rhs = true) as ->
    by (unfold is_negative; now rewrite Hn).
  cbn [eqb negb]. now rewrite negate_negative_diverges.
Qed.

(** ** The digit loops write in range *)

Lemma Ok_not_throws {A : Type} (a : A) : ~ throws (Ok a).
Proof. intros [msg H]. discriminate H. Qed.

Lemma OutOfFuel_not_throws {A : Type} : ~ throws (@OutOfFuel A).
Proof. intros [msg H]. discriminate H. Qed.

Lemma bind_not_throws {A B : Type} (m : result A) (k : A -> result B) :
  ~ throws m -> (forall a, ~ throws (k a)) -> ~ throws (bind m k).
Proof.
  intros Hm Hk. destruct m as [a|msg|]; cbn [bind].
  - apply Hk.
  - exfalso. apply Hm. now exists msg.
  - apply OutOfFuel_not_throws.
Qed.

Section Loops.
Context {St : Type}.
Variable Inv : Z -> St -> Prop.
Variable body : Z -> St -> result St.

Lemma for_up_not_throws n :
  (forall j s, ~ throws (body j s)) ->
  forall i s, ~ throws (for_up n i body s).
Proof.
  intros Hb. induction n as [|n IH]; intros i s; cbn [for_up].
  - apply Ok_not_throws.
  - apply bind_not_throws; [apply Hb | intros a; apply IH].
Qed.

(** A loop whose body returns under an invariant returns, and the
    invariant holds at the exit. *)
Lemma for_up_inv n :
  forall i s,
    Inv i s ->
    (forall j t, i <= j < i + Z.of_nat n -> Inv j t ->
       exists t', body j t = Ok t' /\ Inv (j + 1) t') ->
    exists s', for_up n i body s = Ok s' /\ Inv (i + Z.of_nat n) s'.
Proof.
  induction n as [|n IH]; intros i s Hi Hb; cbn [for_up].
  - exists s. split; [reflexivity|].
    now replace (i + Z.of_nat 0) with i by lia.
  - destruct (Hb i s ltac:(lia) Hi) as (t & -> & Ht). cbn [bind].
    destruct (IH (i + 1) t Ht) as (s' & -> & Hs').
    + intros j u Hj. apply Hb. lia.
    + exists s'. split; [reflexivity|].
      now replace (i + Z.of_nat (S n)) with (i + 1 + Z.of_nat n) by lia.
Qed.
End Loops.

Lemma change_digit_in_range this pos val :
  in_range this pos = true ->
  change_digit this pos val =
    Ok (mkBigInteger (m_sign this)
          (<[Z.to_nat pos := to_char (val + chr_0)]> (m_data this))).
Proof. unfold change_digit. now intros ->. Qed.

Lemma change_digit_count this pos val this' :
  change_digit this pos val = Ok this' -> count this' = count this.
Proof.
  unfold change_digit. destruct (in_range this pos); [|discriminate].
  intros [= <-]. unfold count. cbn [m_data]. now rewrite length_insert.
Qed.

Lemma change_digit_sign this pos val this' :
  change_digit this pos val = Ok this' -> m_sign this' = m_sign this.
Proof.
  unfold change_digit. destruct (in_range this pos); [|discriminate].
  now intros [= <-].
Qed.

Lemma push_digit_count this val : count (push_digit this val) = count this + 1.
Proof. unfold count, push_digit. cbn [m_data]. rewrite length_app. cbn. lia. Qed.

Lemma in_range_iff this pos :
  in_range this pos = true <-> 0 <= pos < count this.
Proof. unfold in_range. rewrite andb_true_iff, Z.leb_le, Z.ltb_lt. tauto. Qed.

Lemma count_nonneg this : 0 <= count this.
Proof. unfold count. lia. Qed.

Lemma add_digits_returns this rhs : exists r, add_digits this rhs = Ok r.
Proof.
  unfold add_digits.
  destruct (for_up_inv (fun _ '(t, _) => count this <= count t)
              (add_step (count this) rhs)
              (Z.to_nat (Z.max (count this) (count rhs))) 0 (this, 0))
    as ([t c] & -> & _).
  - cbn. lia.
  - intros j [t c] Hj Ht. unfold add_step.
    destruct (j <? count this) eqn:Hlt.
    + apply Z.ltb_lt in Hlt.
      rewrite change_digit_in_range by (apply in_range_iff; lia).
      cbn [bind]. eexists. split; [reflexivity|].
      unfold count in *. cbn [m_data]. now rewrite length_insert.
    + eexists. split; [reflexivity|]. cbv beta iota.
      rewrite push_digit_count. lia.
  - cbn [bind]. now eexists.
Qed.

Lemma sub_digits_returns this rhs : exists r, sub_digits this rhs = Ok r.
Proof.
  unfold sub_digits.
  destruct (for_up_inv (fun _ '(t, _) => count t = count this)
              (sub_step rhs) (Z.to_nat (count this)) 0 (this, 0))
    as ([t c] & -> & _).
  - reflexivity.
  - intros j [t c] Hj Ht. unfold sub_step.
    destruct (_ <? 0);
      (rewrite change_digit_in_range by (apply in_range_iff; lia));
      cbn [bind]; (eexists; split; [reflexivity|]);
      unfold count in *; cbn [m_data]; now rewrite length_insert.
  - cbn [bind]. now eexists.
Qed.

Lemma scale_digits_returns this num : exists r, scale_digits this num = Ok r.
Proof.
  unfold scale_digits.
  destruct (for_up_inv (fun _ '(t, _) => count t = count this)
              (scale_step num) (Z.to_nat (count this)) 0 (this, 0))
    as ([t c] & -> & _).
  - reflexivity.
  - intros j [t c] Hj Ht. unfold scale_step.
    rewrite change_digit_in_range by (apply in_range_iff; lia).
    cbn [bind]. eexists. split; [reflexivity|].
    unfold count in *. cbn [m_data]. now rewrite length_insert.
  - cbn [bind]. now eexists.
Qed.

(** No call of the four compound assignments throws, whatever the
    operands, the aliasing and the call depth. *)
Lemma ops_not_throw fuel :
  (forall same this rhs, ~ throws (op_add_assign fuel same this rhs)) /\
  (forall same this rhs, ~ throws (op_sub_assign fuel same this rhs)) /\
  (forall this rhs, ~ throws (op_mul_assign fuel this rhs)) /\
  (forall this num, ~ throws (op_mul_int_assign fuel this num)).
Proof.
  induction fuel as [|f (IHadd & IHsub & IHmul & IHint)].
  - repeat split; intros; apply OutOfFuel_not_throws.
  - repeat split.
    + intros same this rhs. rewrite op_add_assign_S.
      destruct same; [apply IHint|].
      destruct (negb _).
      * apply bind_not_throws; [apply IHint | intros; apply IHsub].
      * destruct (add_digits_returns this rhs) as [r ->]. apply Ok_not_throws.
    + intros same this rhs. rewrite op_sub_assign_S.
      destruct same; [apply Ok_not_throws|].
      destruct (negb _).
      * apply bind_not_throws; [apply IHint | intros; apply IHadd].
      * destruct (_ || _).
        -- apply bind_not_throws; [apply IHsub | intros; apply Ok_not_throws].
        -- destruct (sub_digits_returns this rhs) as [r ->].
           apply Ok_not_throws.
    + intros this rhs. rewrite op_mul_assign_S.
      apply bind_not_throws.
      * apply for_up_not_throws. intros j [lhs sum]. unfold mul_step.
        apply bind_not_throws; [apply IHint|]. intros t.
        apply bind_not_throws; [apply IHadd|]. intros sum'.
        apply bind_not_throws; [apply IHint|]. intros lhs'.
        apply Ok_not_throws.
      * intros [lhs sum]. apply Ok_not_throws.
    + intros this num. rewrite op_mul_int_assign_S.
      destruct (num =? 0); [apply Ok_not_throws|].
      destruct (num =? 1); [apply Ok_not_throws|].
      destruct (_ || _); [apply IHmul|].
      destruct (scale_digits_returns this num) as [r ->]. apply Ok_not_throws.
Qed.

(** ** Numeric value *)

Lemma digit_okb_iff c : digit_okb c = true <-> digit_ok c.
Proof.
  unfold digit_okb, digit_ok. rewrite andb_true_iff, !Z.leb_le. tauto.
Qed.

Lemma digits_ok_Forall this : digits_ok this <-> Forall digit_ok (m_data this).
Proof.
  unfold digits_ok. induction (m_data this) as [|c l IH]; cbn [forallb].
  - split; [constructor | reflexivity].
  - rewrite andb_true_iff, Forall_cons, digit_okb_iff, IH. tauto.
Qed.

Lemma to_char_small v : -128 <= v < 128 -> to_char v = v.
Proof. intros H. unfold to_char. rewrite Z.mod_small by lia. lia. Qed.

Lemma magnitude_of_app l1 l2 :
  magnitude_of (l1 ++ l2) =
    magnitude_of l1 + BASE ^ Z.of_nat (length l1) * magnitude_of l2.
Proof.
  induction l1 as [|c l1 IH].
  - cbn [app magnitude_of length]. change (BASE ^ Z.of_nat 0) with 1. lia.
  - cbn [app magnitude_of length]. rewrite IH.
    rewrite Nat2Z.inj_succ, Z.pow_succ_r by lia. lia.
Qed.

Lemma get_digit_middle s pre c suf :
  get_digit (mkBigInteger s (pre ++ c :: suf)) (Z.of_nat (length pre))
  = c - chr_0.
Proof.
  unfold get_digit.
  assert (in_range (mkBigInteger s (pre ++ c :: suf)) (Z.of_nat (length pre))
          = true) as ->.
  { apply in_range_iff. unfold count. cbn [m_data].
    rewrite length_app. cbn [length]. lia. }
  cbn [m_data]. rewrite Nat2Z.id.
  now rewrite list_lookup_middle by reflexivity.
Qed.

Lemma change_digit_middle s pre c suf val :
  change_digit (mkBigInteger s (pre ++ c :: suf)) (Z.of_nat (length pre)) val
  = Ok (mkBigInteger s (pre ++ to_char (val + chr_0) :: suf)).
Proof.
  rewrite change_digit_in_range.
  - cbn [m_sign m_data]. rewrite Nat2Z.id.
    rewrite insert_app_r_alt by lia. now rewrite Nat.sub_diag.
  - apply in_range_iff. unfold count. cbn [m_data].
    rewrite length_app. cbn [length]. lia.
Qed.

Lemma scale_digits_eq this num :
  scale_digits this num =
    let* (t, carry) :=
      for_up (Z.to_nat (count this)) 0 (scale_step num) (this, 0) in
    let t := if negb (carry =? 0) then push_digit t carry else t in
    Ok (if is_negative this && (num >? 0) then set_sign t NEGATIVE else t).
Proof. reflexivity. Qed.

(** The loop over the digits not yet visited: the carry stays a single
    digit, and digits and carry together hold [num] times the old digits
    plus the incoming carry. *)
Lemma scale_loop_spec num s :
  0 <= num <= 10 ->
  forall suf pre carry,
    Forall digit_ok suf -> 0 <= carry <= 9 ->
    exists suf' carry',
      for_up (length suf) (Z.of_nat (length pre)) (scale_step num)
        (mkBigInteger s (pre ++ suf), carry)
      = Ok (mkBigInteger s (pre ++ suf'), carry')
      /\ length suf' = length suf
      /\ Forall digit_ok suf'
      /\ 0 <= carry' <= 9
      /\ magnitude_of suf' + BASE ^ Z.of_nat (length suf) * carry'
         = num * magnitude_of suf + carry.
Proof.
  intros Hnum. induction suf as [|c suf IH]; intros pre carry Hok Hc.
  - exists [], carry. cbn [for_up length magnitude_of].
    repeat split; try lia. constructor.
  - apply Forall_cons in Hok as [Hc0 Hok]. unfold digit_ok, chr_0 in Hc0.
    cbn [for_up length]. unfold scale_step at 1.
    rewrite get_digit_middle, change_digit_middle. cbn [bind].
    set (product := num * (c - chr_0) + carry).
    assert (0 <= product <= 99) as Hp by (unfold product, chr_0; nia).
    rewrite Z.rem_mod_nonneg, Z.quot_div_nonneg by (unfold BASE; lia).
    assert (0 <= product mod BASE < 10) as Hm
      by (apply Z.mod_pos_bound; reflexivity).
    assert (0 <= product / BASE <= 9) as Hq.
    { unfold BASE. split; [apply Z.div_pos; lia|].
      enough (product / 10 < 10) by lia.
      apply Z.div_lt_upper_bound; lia. }
    rewrite to_char_small by (unfold chr_0; lia).
    destruct (IH (pre ++ [product mod BASE + chr_0]) (product / BASE) Hok Hq)
      as (suf' & carry' & Hrun & Hlen & Hok' & Hc' & Hval).
    rewrite length_app, Nat2Z.inj_add in Hrun. cbn [length] in Hrun.
    rewrite <- !app_assoc in Hrun. cbn [app] in Hrun.
    exists ((product mod BASE + chr_0) :: suf'), carry'.
    split; [exact Hrun|]. split; [cbn [length]; lia|].
    split; [constructor; [unfold digit_ok, chr_0; lia | exact Hok']|].
    split; [exact Hc'|].
    cbn [magnitude_of]. rewrite Nat2Z.inj_succ, Z.pow_succ_r by lia.
    pose proof (Z.div_mod product BASE ltac:(unfold BASE; lia)) as Hdm.
    unfold product in Hdm at 1. rewrite <- Z.mul_assoc.
    unfold BASE in *. lia.
Qed.

Lemma scale_digits_spec this num :
  digits_ok this -> 2 <= num <= 10 ->
  exists r,
    scale_digits this num = Ok r
    /\ magnitude r = num * magnitude this
    /\ m_sign r = m_sign this
    /\ digits_ok r
    /\ (length (m_data this) <= length (m_data r) <= length (m_data this) + 1)%nat.
Proof.
  intros Hok Hnum. apply digits_ok_Forall in Hok.
  destruct this as [s d]. cbn [m_data m_sign] in *.
  destruct (scale_loop_spec num s ltac:(lia) d [] 0 Hok ltac:(lia))
    as (d' & carry & Hrun & Hlen & Hok' & Hc & Hval).
  cbn [app length] in Hrun. change (Z.of_nat 0) with 0 in Hrun.
  rewrite scale_digits_eq. unfold count at 1. cbn [m_data].
  rewrite Nat2Z.id, Hrun. cbn [bind].
  assert (is_negative (mkBigInteger s d) && (num >? 0) = is_negative (mkBigInteger s d))
    as -> by (replace (num >? 0) with true by (symmetry; apply Z.gtb_lt; lia);
              apply andb_true_r).
  assert (forall t, m_sign t = s ->
            m_sign (if is_negative (mkBigInteger s d)
                    then set_sign t NEGATIVE else t) = s
            /\ m_data (if is_negative (mkBigInteger s d)
                       then set_sign t NEGATIVE else t) = m_data t) as Hsign.
  { intros t Ht. unfold is_negative. cbn [m_sign].
    destruct s; cbn [Sign_eqb]; [now split|]. now split. }
  eexists. split; [reflexivity|].
  destruct (carry =? 0) eqn:Hcz; cbn [negb].
  - apply Z.eqb_eq in Hcz. subst carry.
    destruct (Hsign (mkBigInteger s d') eq_refl) as [Hs Hd].
    unfold magnitude. rewrite Hs, Hd. cbn [m_data].
    repeat split; try lia.
    apply digits_ok_Forall. now rewrite Hd.
  - apply Z.eqb_neq in Hcz.
    destruct (Hsign (push_digit (mkBigInteger s d') carry) eq_refl) as [Hs Hd].
    unfold magnitude. rewrite Hs, Hd. unfold push_digit in Hd |- *.
    cbn [m_data m_sign] in Hd |- *.
    rewrite to_char_small in Hd |- * by (unfold chr_0; lia).
    rewrite magnitude_of_app, length_app. cbn [magnitude_of length].
    rewrite Hlen. repeat split; try lia.
    apply digits_ok_Forall. rewrite Hd.
    apply Forall_app. split; [exact Hok'|].
    constructor; [unfold digit_ok, chr_0; lia | constructor].
Qed.

(** ** C9 *)

(** C9.  For every BigInteger [a] whose stored digits are decimal digits
    and every native [n] with [0 < n <= 10], [a *= n] returns without
    further calls, the result has [n] times the numeric value of [a], the
    sign of [a], decimal digits only, and at most one digit more than [a]:
    the carry after the last digit is itself a single digit, also for
    [n == 10], so the one [push_digit] of the source is enough. *)
Theorem scalar_multiply_fast_path (a : BigInteger) (n : Z) (fuel : nat) :
  digits_ok a -> 0 < n <= 10 ->
  exists r,
    op_mul_int_assign (S fuel) a n = Ok r
    /\ value r = n * value a
    /\ m_sign r = m_sign a
    /\ digits_ok r
    /\ (length (m_data a) <= length (m_data r) <= length (m_data a) + 1)%nat.
Proof.
  intros Hok Hn. rewrite op_mul_int_assign_S.
  replace (n =? 0) with false by (symmetry; apply Z.eqb_neq; lia).
  destruct (n =? 1) eqn:H1.
  - apply Z.eqb_eq in H1. subst n. exists a.
    split; [reflexivity|]. split; [|repeat split; try lia; exact Hok].
    unfold value. destruct (m_sign a); lia.
  - apply Z.eqb_neq in H1.
    replace ((BASE <? n) || (n <? 0)) with false.
    2:{ symmetry. apply orb_false_iff.
        split; apply Z.ltb_ge; unfold BASE; lia. }
    destruct (scale_digits_spec a n Hok ltac:(lia))
      as (r & Hr & Hmag & Hs & Hok' & Hlen).
    exists r. split; [exact Hr|]. split; [|now repeat split].
    unfold value. rewrite Hs, Hmag. destruct (m_sign a); lia.
Qed.

Lemma scalar_multiply_fast_path_witness :
  exists r,
    op_mul_int_assign 1 (BigInteger_int (-999)) 10 = Ok r
    /\ value r = 10 * value (BigInteger_int (-999))
    /\ m_sign r = m_sign (BigInteger_int (-999))
    /\ digits_ok r
    /\ (length (m_data (BigInteger_int (-999))) <= length (m_data r)
        <= length (m_data (BigInteger_int (-999))) + 1)%nat.
Proof.
  apply (scalar_multiply_fast_path (BigInteger_int (-999)) 10 0).
  - reflexivity.
  - lia.
Defined.

(** ** C10 *)

(** C10.  At a position that is negative or at least the stored length,
    [get_digit] returns 0 and [change_digit] throws the text that ends in
    that position; and no call of [+=], [-=], [*=] (either overload), hence
    of the binary operators built on them, throws, whatever the operands,
    the aliasing and the call depth: every [change_digit] of the digit
    loops is in range. *)
Theorem digit_access_policy (this : BigInteger) (pos : Z) :
  pos < 0 \/ count this <= pos ->
  get_digit this pos = 0
  /\ (forall val,
        change_digit this pos val
        = Throw ("Invalid position : " +:+ std_to_string pos))
  /\ (forall fuel same a b,
        ~ throws (op_add_assign fuel same a b)
        /\ ~ throws (op_sub_assign fuel same a b)
        /\ ~ throws (op_mul_assign fuel a b))
  /\ (forall fuel a n, ~ throws (op_mul_int_assign fuel a n))
  /\ (forall a b, exists r, add_digits a b = Ok r)
  /\ (forall a b, exists r, sub_digits a b = Ok r)
  /\ (forall a n, exists r, scale_digits a n = Ok r).
Proof.
  intros Hpos.
  assert (in_range this pos = false) as Hout.
  { destruct (in_range this pos) eqn:E; [|reflexivity].
    apply in_range_iff in E. lia. }
  split; [unfold get_digit; now rewrite Hout|].
  split; [intros val; unfold change_digit; now rewrite Hout|].
  split.
  { intros fuel same a b.
    destruct (ops_not_throw fuel) as (Ha & Hs & Hm & _).
    repeat split; [apply Ha | apply Hs | apply Hm]. }
  split.
  { intros fuel a n. destruct (ops_not_throw fuel) as (_ & _ & _ & Hi).
    apply Hi. }
  split; [exact add_digits_returns|].
  split; [exact sub_digits_returns | exact scale_digits_returns].
Qed.

Lemma digit_access_policy_witness :
  (3 < 0 \/ count (BigInteger_int 120) <= 3)
  /\ get_digit (BigInteger_int 120) 3 = 0
  /\ change_digit (BigInteger_int 120) 3 7 = Throw "Invalid position : 3".
Proof.
  assert (3 < 0 \/ count (BigInteger_int 120) <= 3) as H
    by (right; vm_compute; discriminate).
  split; [exact H|].
  destruct (digit_access_policy (BigInteger_int 120) 3 H) as (Hget & Hset & _).
  split; [exact Hget | exact (Hset 7)].
Defined.

(** ** C7 *)

Lemma less_than_loop_irrefl k this : less_than_loop k this this = false.
Proof.
  induction k as [|k IH]; [reflexivity|]. cbn [less_than_loop].
  rewrite Z.ltb_irrefl.
  assert ((get_digit this (Z.of_nat k) >? get_digit this (Z.of_nat k)) = false)
    as -> by (rewrite Z.gtb_ltb; apply Z.ltb_irrefl).
  exact IH.
Qed.

Lemma less_than_irrefl this : less_than this this = false.
Proof.
  unfold less_than.
  assert (Sign_eqb (m_sign this) (m_sign this) = true) as ->
    by (destruct (m_sign this); reflexivity).
  rewrite Z.eqb_refl. cbn [negb]. apply less_than_loop_irrefl.
Qed.

(** [operator>=] is [operator==]: its second disjunct compares [rhs] with
    itself. *)
Lemma op_ge_is_op_eq lhs rhs : op_ge lhs rhs = op_eq lhs rhs.
Proof.
  unfold op_ge, op_gt, op_lt. rewrite less_than_irrefl. apply orb_false_r.
Qed.

(** C7 fails on the code: [BigInteger(5) >= BigInteger(3)] is false while
    [BigInteger(5) > BigInteger(3)] is true and [BigInteger(5) <
    BigInteger(3)] is false; for all operands [>=] answers what [==]
    answers. *)
Theorem op_ge_misses_greater :
  op_ge (BigInteger_int 5) (BigInteger_int 3) = false
  /\ op_gt (BigInteger_int 5) (BigInteger_int 3) = true
  /\ op_lt (BigInteger_int 5) (BigInteger_int 3) = false
  /\ (forall lhs rhs, op_ge lhs rhs = op_eq lhs rhs).
Proof.
  split; [reflexivity|]. split; [reflexivity|]. split; [reflexivity|].
  exact op_ge_is_op_eq.
Qed.

(** ** C5 and C6 *)

(** C5 fails on the code: with the sign flag NEGATIVE and no digit,
    [to_string] returns the minus sign alone, the test [res.size()] being
    made after the sign was pushed.  [BigInteger("-")] is such a value.
    With the flag POSITIVE the text is "0". *)
Theorem to_string_negative_empty :
  to_string (mkBigInteger NEGATIVE []) = "-"%string
  /\ BigInteger_string "-" = mkBigInteger NEGATIVE []
  /\ to_string (mkBigInteger POSITIVE []) = "0"%string.
Proof. repeat split. Qed.

(** C6 fails on the code: the text constructors store the digits as
    written and never call [normalize], so "0" and "007" give digit
    sequences with leading zeros, which [normalize] would strip and
    [operator==] tells apart from [BigInteger(0)] and [BigInteger(7)]. *)
Theorem text_constructor_keeps_leading_zeros :
  BigInteger_string "007" = mkBigInteger POSITIVE [55; 48; 48]
  /\ normalized (BigInteger_string "007") = false
  /\ BigInteger_string "0" = mkBigInteger POSITIVE [48]
  /\ normalized (BigInteger_string "0") = false
  /\ normalize (BigInteger_string "007") = BigInteger_int 7
  /\ normalize (BigInteger_string "0") = BigInteger_int 0
  /\ op_eq (BigInteger_string "007") (BigInteger_int 7) = false
  /\ op_eq (BigInteger_string "0") (BigInteger_int 0) = false.
Proof. repeat split. Qed.

(** ** C1 and C2 *)

Lemma scale_digits_sign this num r :
  scale_digits this num = Ok r -> 0 < num -> m_sign r = m_sign this.
Proof.
  rewrite scale_digits_eq. intros Hr Hnum.
  destruct (for_up_inv (fun _ '(t, _) =>
                count t = count this /\ m_sign t = m_sign this)
              (scale_step num) (Z.to_nat (count this)) 0 (this, 0))
    as ([t c] & Hrun & _ & Hs).
  - now split.
  - intros j [t c] Hj [Hcnt Hs]. unfold scale_step.
    destruct (change_digit t j _) as [t'| |] eqn:Hcd.
    + cbn [bind]. eexists. split; [reflexivity|]. cbv beta iota.
      rewrite (change_digit_count _ _ _ _ Hcd), (change_digit_sign _ _ _ _ Hcd).
      now split.
    + rewrite change_digit_in_range in Hcd by (apply in_range_iff; lia).
      discriminate Hcd.
    + rewrite change_digit_in_range in Hcd by (apply in_range_iff; lia).
      discriminate Hcd.
  - rewrite Hrun in Hr. cbn [bind] in Hr. injection Hr as <-.
    assert (m_sign (if negb (c =? 0) then push_digit t c else t) = m_sign this)
      as Hs' by (destruct (negb _); exact Hs).
    destruct (is_negative this && (num >? 0)) eqn:E; [|exact Hs'].
    apply andb_true_iff in E as [E _]. unfold is_negative in E.
    cbn [set_sign m_sign]. destruct (m_sign this); [discriminate E|reflexivity].
Qed.

(** [a *= b] with [a] negative and a least significant digit of [b] in
    1..10: the first partial product is negative, and adding it to the
    positive accumulator asks for its negation. *)
Lemma mul_negative_diverges fuel this rhs :
  m_sign this = NEGATIVE -> 0 < count rhs -> 1 <= get_digit rhs 0 <= 10 ->
  op_mul_assign fuel this rhs = OutOfFuel.
Proof.
  intros Hneg Hcnt Hd. destruct fuel as [|f]; [reflexivity|].
  rewrite op_mul_assign_S.
  destruct (Z.to_nat (count rhs)) as [|n] eqn:En; [lia|].
  cbn [for_up]. unfold mul_step at 1.
  assert (exists t, op_mul_int_assign f this (get_digit rhs 0) = OutOfFuel
                    \/ (exists f', f = S f'
                          /\ op_mul_int_assign f this (get_digit rhs 0) = Ok t
                          /\ m_sign t = NEGATIVE)) as (t & [-> | (f' & -> & -> & Ht)]).
  { destruct f as [|f']; [exists this; now left|].
    rewrite op_mul_int_assign_S.
    replace (get_digit rhs 0 =? 0) with false
      by (symmetry; apply Z.eqb_neq; lia).
    destruct (get_digit rhs 0 =? 1) eqn:E1.
    - exists this. right. exists f'. now repeat split.
    - replace ((BASE <? get_digit rhs 0) || (get_digit rhs 0 <? 0)) with false.
      2:{ symmetry. apply orb_false_iff.
          split; apply Z.ltb_ge; unfold BASE; lia. }
      destruct (scale_digits_returns this (get_digit rhs 0)) as [t Ht].
      exists t. right. exists f'. repeat split; [exact Ht|].
      rewrite (scale_digits_sign _ _ _ Ht) by lia. exact Hneg. }
  - reflexivity.
  - cbn [bind].
    now rewrite add_positive_negative_diverges by (exact Ht || reflexivity).
Qed.

(** C1 fails on the code: [3 += -4], [3 -= -4] and [-3 *= 4] do not
    return at any call depth.  Each asks for the negation [x * -1] of a
    negative [x], which [negate_negative_diverges] shows to ask for itself
    again. *)
Theorem mixed_sign_calls_do_not_return (fuel : nat) :
  op_add_assign fuel false (BigInteger_int 3) (BigInteger_int (-4)) = OutOfFuel
  /\ op_sub_assign fuel false (BigInteger_int 3) (BigInteger_int (-4)) = OutOfFuel
  /\ op_mul_assign fuel (BigInteger_int (-3)) (BigInteger_int 4) = OutOfFuel
  /\ op_mul_int_assign fuel (BigInteger_int (-4)) (-1) = OutOfFuel.
Proof.
  split; [now apply add_positive_negative_diverges|].
  split; [now apply sub_positive_negative_diverges|].
  split; [apply mul_negative_diverges; [reflexivity | reflexivity | vm_compute; split; discriminate]|].
  now apply negate_negative_diverges.
Qed.

(** C2 fails on the code: [BigInteger(-3) * BigInteger(-4)] and
    [BigInteger(-3) * BigInteger(4)] do not return at any call depth, so
    neither has a product, of either sign (the defect of C1: the negative
    partial product is added to a positive accumulator). *)
Theorem negative_times_does_not_return (fuel : nat) :
  op_mul fuel (BigInteger_int (-3)) (BigInteger_int (-4)) = OutOfFuel
  /\ op_mul fuel (BigInteger_int (-3)) (BigInteger_int 4) = OutOfFuel.
Proof.
  unfold op_mul.
  split; apply mul_negative_diverges;
    solve [reflexivity | vm_compute; split; discriminate].
Qed.

(** ** C3 and C4 *)

Lemma sub_digits_eq this rhs :
  sub_digits this rhs =
    let* (t, borrow) :=
      for_up (Z.to_nat (count this)) 0 (sub_step rhs) (this, 0) in
    Ok (normalize t).
Proof. reflexivity. Qed.

(** Subtracting equal digits writes '0' everywhere and never borrows. *)
Lemma sub_loop_equal s s' :
  forall suf pre pre',
    length pre = length pre' ->
    for_up (length suf) (Z.of_nat (length pre))
      (sub_step (mkBigInteger s' (pre' ++ suf)))
      (mkBigInteger s (pre ++ suf), 0)
    = Ok (mkBigInteger s (pre ++ replicate (length suf) chr_0), 0).
Proof.
  induction suf as [|c suf IH]; intros pre pre' Hlen; cbn [for_up length].
  - reflexivity.
  - unfold sub_step at 1. rewrite get_digit_middle.
    rewrite Hlen, get_digit_middle, <- Hlen.
    replace (c - chr_0 - (c - chr_0) - 0) with 0 by lia.
    cbn [Z.ltb Z.compare]. rewrite change_digit_middle. cbn [bind].
    change (to_char (0 + chr_0)) with chr_0.
    specialize (IH (pre ++ [chr_0]) (pre' ++ [c])).
    rewrite !length_app, <- !app_assoc in IH. cbn [length app] in IH.
    rewrite Nat2Z.inj_add in IH. change (Z.of_nat 1) with 1 in IH.
    rewrite IH by lia. cbn [replicate]. reflexivity.
Qed.

Lemma normalize_loop_zeros s k :
  normalize_loop k (mkBigInteger s (replicate k chr_0)) = mkBigInteger s [].
Proof.
  induction k as [|k IH]; [reflexivity|]. cbn [normalize_loop].
  assert (get_digit (mkBigInteger s (replicate (S k) chr_0)) (Z.of_nat k) = 0)
    as ->.
  { unfold get_digit.
    assert (in_range (mkBigInteger s (replicate (S k) chr_0)) (Z.of_nat k)
            = true) as ->.
    { apply in_range_iff. unfold count. cbn [m_data].
      rewrite length_replicate. lia. }
    cbn [m_data]. rewrite Nat2Z.id, lookup_replicate_2 by lia. lia. }
  cbn [Z.eqb negb m_data].
  rewrite length_replicate. cbn [Nat.eqb]. unfold pop_back. cbn [m_sign m_data].
  rewrite replicate_S_end, removelast_last. exact IH.
Qed.

(** [a - b] with [b] a distinct object equal to [a]: the digit loop and
    [normalize] leave no digit, and the sign flag of [a]. *)
Lemma sub_equal_operands fuel a :
  op_sub_assign (S fuel) false a a = Ok (mkBigInteger (m_sign a) []).
Proof.
  rewrite op_sub_assign_S, eqb_reflx. cbn [negb].
  unfold op_gt, op_lt. rewrite less_than_irrefl, !andb_false_r. cbn [orb].
  rewrite sub_digits_eq. destruct a as [s d].
  pose proof (sub_loop_equal s s d [] [] eq_refl) as Hrun.
  cbn [app length] in Hrun. change (Z.of_nat 0) with 0 in Hrun.
  unfold count at 1. cbn [m_data m_sign]. rewrite Nat2Z.id, Hrun.
  cbn [bind]. unfold normalize, count. cbn [m_data].
  rewrite length_replicate, Nat2Z.id. now rewrite normalize_loop_zeros.
Qed.

(** C3 fails on the code for every negative [a]: subtracting a distinct
    object equal to [a] (also [a - a], whose left operand is a copy)
    returns no digit under the sign flag of [a], which [operator==] tells
    apart from [BigInteger(0)] when that flag is NEGATIVE; so for
    [a = BigInteger(-5)].  The self-aliased [a -= a] returns
    [BigInteger(0)]. *)
Theorem sub_equal_keeps_sign (a : BigInteger) (fuel : nat) :
  op_sub (S fuel) a a = Ok (mkBigInteger (m_sign a) [])
  /\ op_eq (mkBigInteger (m_sign a) []) (BigInteger_int 0) = is_positive a
  /\ op_sub_assign (S fuel) true a a = Ok (BigInteger_int 0)
  /\ op_sub (S fuel) (BigInteger_int (-5)) (BigInteger_int (-5))
     = Ok (mkBigInteger NEGATIVE [])
  /\ op_eq (mkBigInteger NEGATIVE []) (BigInteger_int 0) = false.
Proof.
  split; [apply sub_equal_operands|].
  split; [destruct a as [[|] d]; reflexivity|].
  split; [reflexivity|].
  split; [apply (sub_equal_operands fuel (BigInteger_int (-5))) | reflexivity].
Qed.

(** C4 fails on the code: [BigInteger(-3) * BigInteger(0)],
    [BigInteger(0) * BigInteger(-3)] and [BigInteger(-5) - BigInteger(-5)]
    return the value 0 under the sign flag NEGATIVE. *)
Theorem negative_zero_is_produced (fuel : nat) :
  op_mul (S fuel) (BigInteger_int (-3)) (BigInteger_int 0)
  = Ok (mkBigInteger NEGATIVE [])
  /\ op_mul (S (S fuel)) (BigInteger_int 0) (BigInteger_int (-3))
     = Ok (mkBigInteger NEGATIVE [])
  /\ op_sub (S fuel) (BigInteger_int (-5)) (BigInteger_int (-5))
     = Ok (mkBigInteger NEGATIVE [])
  /\ value (mkBigInteger NEGATIVE []) = 0
  /\ mkBigInteger NEGATIVE [] <> BigInteger_int 0.
Proof.
  split; [reflexivity|]. split; [reflexivity|].
  split; [apply (sub_equal_operands fuel (BigInteger_int (-5)))|].
  split; [reflexivity | discriminate].
Qed.

(** ** The call-depth budget *)

Lemma approx_refl {A : Type} (r : result A) : approx r r.
Proof. now right. Qed.

Lemma bind_approx {A B : Type} (m1 m2 : result A) (k1 k2 : A -> result B) :
  approx m1 m2 -> (forall a, approx (k1 a) (k2 a)) ->
  approx (bind m1 k1) (bind m2 k2).
Proof.
  intros [-> | ->] Hk; [now left|].
  destruct m2 as [a|msg|]; cbn [bind]; [apply Hk | now right | now left].
Qed.

Lemma for_up_approx {St : Type} (b1 b2 : Z -> St -> result St) n :
  (forall i s, approx (b1 i s) (b2 i s)) ->
  forall i s, approx (for_up n i b1 s) (for_up n i b2 s).
Proof.
  intros Hb. induction n as [|n IH]; intros i s; cbn [for_up].
  - apply approx_refl.
  - apply bind_approx; [apply Hb | intros a; apply IH].
Qed.

Lemma mul_step_approx mul_int1 mul_int2 add1 add2 rhs i st :
  (forall x n, approx (mul_int1 x n) (mul_int2 x n)) ->
  (forall x y, approx (add1 x y) (add2 x y)) ->
  approx (mul_step mul_int1 add1 rhs i st) (mul_step mul_int2 add2 rhs i st).
Proof.
  intros Hm Ha. destruct st as [lhs sum]. unfold mul_step.
  apply bind_approx; [apply Hm|]. intros t.
  apply bind_approx; [apply Ha|]. intros sum'.
  apply bind_approx; [apply Hm|]. intros lhs'. apply approx_refl.
Qed.

(** One more level of calls keeps every answer already reached. *)
Lemma ops_fuel_step fuel :
  (forall same this rhs,
     approx (op_add_assign fuel same this rhs)
            (op_add_assign (S fuel) same this rhs)) /\
  (forall same this rhs,
     approx (op_sub_assign fuel same this rhs)
            (op_sub_assign (S fuel) same this rhs)) /\
  (forall this rhs,
     approx (op_mul_assign fuel this rhs) (op_mul_assign (S fuel) this rhs)) /\
  (forall this num,
     approx (op_mul_int_assign fuel this num)
            (op_mul_int_assign (S fuel) this num)).
Proof.
  induction fuel as [|f (IHadd & IHsub & IHmul & IHint)].
  - repeat split; intros; now left.
  - repeat split.
    + intros same this rhs. rewrite !op_add_assign_S.
      destruct same; [apply IHint|].
      destruct (negb _); [|apply approx_refl].
      apply bind_approx; [apply IHint | intros; apply IHsub].
    + intros same this rhs. rewrite !op_sub_assign_S.
      destruct same; [apply approx_refl|].
      destruct (negb _).
      * apply bind_approx; [apply IHint | intros; apply IHadd].
      * destruct (_ || _); [|apply approx_refl].
        apply bind_approx; [apply IHsub | intros; apply approx_refl].
    + intros this rhs. rewrite !op_mul_assign_S.
      apply bind_approx; [|intros [lhs sum]; apply approx_refl].
      apply for_up_approx. intros i st.
      apply mul_step_approx; [apply IHint | intros; apply IHadd].
    + intros this num. rewrite !op_mul_int_assign_S.
      destruct (num =? 0); [apply approx_refl|].
      destruct (num =? 1); [apply approx_refl|].
      destruct (_ || _); [apply IHmul | apply approx_refl].
Qed.

(** An answer reached within some call depth is the answer at every
    larger depth. *)
Lemma ops_fuel_mono fuel k :
  (forall same this rhs r,
     op_add_assign fuel same this rhs = Ok r ->
     op_add_assign (fuel + k) same this rhs = Ok r) /\
  (forall same this rhs r,
     op_sub_assign fuel same this rhs = Ok r ->
     op_sub_assign (fuel + k) same this rhs = Ok r) /\
  (forall this rhs r,
     op_mul_assign fuel this rhs = Ok r ->
     op_mul_assign (fuel + k) this rhs = Ok r) /\
  (forall this num r,
     op_mul_int_assign fuel this num = Ok r ->
     op_mul_int_assign (fuel + k) this num = Ok r).
Proof.
  induction k as [|k (IHadd & IHsub & IHmul & IHint)].
  - rewrite Nat.add_0_r. now repeat split.
  - replace (fuel + S k)%nat with (S (fuel + k)) by lia.
    destruct (ops_fuel_step (fuel + k)) as (Sadd & Ssub & Smul & Sint).
    repeat split.
    + intros same this rhs r H. apply IHadd in H.
      destruct (Sadd same this rhs) as [E | E]; congruence.
    + intros same this rhs r H. apply IHsub in H.
      destruct (Ssub same this rhs) as [E | E]; congruence.
    + intros this rhs r H. apply IHmul in H.
      destruct (Smul this rhs) as [E | E]; congruence.
    + intros this num r H. apply IHint in H.
      destruct (Sint this num) as [E | E]; congruence.
Qed.

(** The delegation that does return: [-3 += 4] negates the positive [4]
    and subtracts, at every call depth from 4 on. *)
Example negative_plus_positive_returns k :
  op_add_assign (4 + k) false (BigInteger_int (-3)) (BigInteger_int 4)
  = Ok (BigInteger_int 1).
Proof. now apply ops_fuel_mono. Qed.

(** ** The constructor from [int] *)

(** The digits pushed for a number below [10 ^ n]: decimal digits of that
    number, the last one not 0, and the counter [n] is not what stops the
    loop. *)
Lemma int_loop_spec n :
  forall num this,
    0 <= num < 10 ^ Z.of_nat n ->
    exists ds,
      int_loop n num this = mkBigInteger (m_sign this) (m_data this ++ ds)
      /\ Forall digit_ok ds
      /\ magnitude_of ds = num
      /\ last ds <> Some chr_0
      /\ forall k, int_loop (n + k) num this = int_loop n num this.
Proof.
  induction n as [|n IH]; intros num this Hnum.
  - change (10 ^ Z.of_nat 0) with 1 in Hnum. assert (num = 0) as -> by lia.
    exists []. cbn [int_loop]. rewrite app_nil_r.
    repeat split; [now destruct this | constructor | discriminate |].
    intros [|k]; reflexivity.
  - rewrite Nat2Z.inj_succ, Z.pow_succ_r in Hnum by lia.
    cbn [int_loop Nat.add]. destruct (num =? 0) eqn:E0.
    + apply Z.eqb_eq in E0. subst num. exists []. rewrite app_nil_r.
      repeat split; [now destruct this | constructor | discriminate].
    + apply Z.eqb_neq in E0.
      rewrite Z.rem_mod_nonneg, Z.quot_div_nonneg by (unfold BASE; lia).
      assert (0 <= num mod BASE < 10) as Hm
        by (apply Z.mod_pos_bound; reflexivity).
      assert (0 <= num / 10 < 10 ^ Z.of_nat n) as Hq.
      { split; [apply Z.div_pos; lia | apply Z.div_lt_upper_bound; lia]. }
      destruct (IH (num / 10) (push_digit this (num mod BASE)) Hq)
        as (ds & Hrun & Hok & Hmag & Hlast & Hk).
      unfold push_digit in Hrun at 2 3. cbn [m_sign m_data] in Hrun.
      rewrite to_char_small in Hrun by (unfold chr_0; lia).
      rewrite <- app_assoc in Hrun. cbn [app] in Hrun.
      exists ((num mod BASE + chr_0) :: ds).
      split; [exact Hrun|].
      split; [constructor; [unfold digit_ok, chr_0; lia | exact Hok]|].
      split.
      { cbn [magnitude_of]. rewrite Hmag.
        pose proof (Z.div_mod num BASE ltac:(unfold BASE; lia)).
        unfold BASE in *. lia. }
      split; [|exact Hk].
      destruct ds as [|d ds]; [|exact Hlast].
      cbn [last]. cbn [magnitude_of] in Hmag. intros [= Hz].
      pose proof (Z.div_mod num BASE ltac:(unfold BASE; lia)).
      unfold BASE, chr_0 in *. lia.
Qed.

(** Away from the most negative [int], the constructor stores the decimal
    digits of [|num|] without a leading zero, under the sign of [num]. *)
Lemma BigInteger_int_spec num :
  INT_MIN < num <= INT_MAX ->
  value (BigInteger_int num) = num
  /\ digits_ok (BigInteger_int num)
  /\ normalized (BigInteger_int num) = true
  /\ m_sign (BigInteger_int num) = (if num <? 0 then NEGATIVE else POSITIVE).
Proof.
  intros Hnum. unfold INT_MIN, INT_MAX in Hnum.
  unfold BigInteger_int, set_sign. cbn [m_data].
  assert (forall s m, 0 <= m < 2 ^ 31 ->
            exists ds, int_loop 10 m (mkBigInteger s []) = mkBigInteger s ds
                       /\ Forall digit_ok ds /\ magnitude_of ds = m
                       /\ last ds <> Some chr_0) as Hloop.
  { intros s m Hm.
    destruct (int_loop_spec 10 m (mkBigInteger s []) ltac:(cbn; lia))
      as (ds & Hrun & Hok & Hmag & Hlast & _).
    exists ds. now repeat split. }
  assert (forall s ds, Forall digit_ok ds -> last ds <> Some chr_0 ->
            digits_ok (mkBigInteger s ds)
            /\ normalized (mkBigInteger s ds) = true) as Hshape.
  { intros s ds Hok Hlast. split; [now apply digits_ok_Forall|].
    unfold normalized. cbn [m_data]. destruct (last ds) as [c|]; [|reflexivity].
    apply negb_true_iff, Z.eqb_neq. intros Hc. apply Hlast. f_equal. lia. }
  destruct (num <? 0) eqn:Hneg.
  - apply Z.ltb_lt in Hneg.
    assert (int_wrap (num * -1) = - num) as ->.
    { unfold int_wrap. rewrite Z.mod_small by lia. lia. }
    destruct (Hloop NEGATIVE (- num) ltac:(lia))
      as (ds & -> & Hok & Hmag & Hlast).
    destruct (Hshape NEGATIVE ds Hok Hlast) as [H1 H2].
    repeat split; [|exact H1|exact H2].
    unfold value, magnitude. cbn [m_sign m_data]. lia.
  - apply Z.ltb_ge in Hneg.
    destruct (Hloop POSITIVE num ltac:(lia)) as (ds & -> & Hok & Hmag & Hlast).
    destruct (Hshape POSITIVE ds Hok Hlast) as [H1 H2].
    repeat split; [|exact H1|exact H2].
    unfold value, magnitude. cbn [m_sign m_data]. lia.
Qed.

(** ** Rendering *)

Lemma append_assoc_text (a b c : string) : (a +:+ b) +:+ c = a +:+ (b +:+ c).
Proof.
  induction a as [|x a IH]; [reflexivity|].
  change (String x ((a +:+ b) +:+ c) = String x (a +:+ (b +:+ c))).
  now f_equal.
Qed.

Lemma append_empty_r (a : string) : a +:+ EmptyString = a.
Proof.
  induction a as [|x a IH]; [reflexivity|].
  change (String x (a +:+ EmptyString) = String x a). now f_equal.
Qed.

Lemma text_of_app l1 l2 : text_of (l1 ++ l2) = text_of l1 +:+ text_of l2.
Proof.
  induction l1 as [|c l1 IH]; [reflexivity|].
  cbn [app text_of]. rewrite IH. reflexivity.
Qed.

Lemma get_digit_lookup this k c :
  m_data this !! k = Some c -> get_digit this (Z.of_nat k) = c - chr_0.
Proof.
  intros Hk. unfold get_digit.
  assert (in_range this (Z.of_nat k) = true) as ->.
  { apply in_range_iff. unfold count. apply lookup_lt_Some in Hk. lia. }
  now rewrite Nat2Z.id, Hk.
Qed.

(** The loop of [to_string] appends the stored characters, most
    significant first. *)
Lemma to_string_loop this :
  Forall digit_ok (m_data this) ->
  forall k res,
    (k <= length (m_data this))%nat ->
    for_down k
      (fun i res => push_back res (to_char (get_digit this i + chr_0))) res
    = res +:+ text_of (rev (take k (m_data this))).
Proof.
  intros Hok. induction k as [|k IH]; intros res Hk.
  - cbn. now rewrite append_empty_r.
  - cbn [for_down].
    destruct (lookup_lt_is_Some_2 (m_data this) k ltac:(lia)) as [c Hc].
    pose proof (Forall_lookup_1 _ _ _ _ Hok Hc) as Hd.
    unfold digit_ok, chr_0 in Hd.
    rewrite (get_digit_lookup _ _ _ Hc), IH by lia.
    rewrite to_char_small by (unfold chr_0; lia).
    replace (c - chr_0 + chr_0) with c by lia.
    rewrite (take_S_r _ _ _ Hc), rev_app_distr. cbn [rev app text_of].
    unfold push_back. now rewrite append_assoc_text.
Qed.

Lemma to_string_shape this :
  digits_ok this ->
  to_string this =
    let res := (if is_negative this then "-" else "")
               +:+ text_of (rev (m_data this)) in
    if (String.length res =? 0)%nat then "0"%string else res.
Proof.
  intros Hok. apply digits_ok_Forall in Hok. unfold to_string.
  rewrite (to_string_loop this Hok) by (unfold count; lia).
  unfold count. rewrite Nat2Z.id, firstn_all.
  destruct (is_negative this); reflexivity.
Qed.

(** *** The stored digits as a decimal numeral *)

Ltac digit_cases H :=
  let c := match type of H with digit_ok ?c => c end in
  unfold digit_ok, chr_0 in H;
  assert (c = 48 \/ c = 49 \/ c = 50 \/ c = 51 \/ c = 52 \/ c = 53
          \/ c = 54 \/ c = 55 \/ c = 56 \/ c = 57)
    as [-> | [-> | [-> | [-> | [-> | [-> | [-> | [-> | [-> | ->]]]]]]]]]
    by lia.

Lemma revapp_lu_digit c d acc :
  Decimal.revapp (lu_digit c d) acc = Decimal.revapp d (lu_digit c acc).
Proof. unfold lu_digit. repeat destruct (_ =? _); reflexivity. Qed.

Lemma revapp_lu_of_snoc l c :
  forall acc,
    Decimal.revapp (lu_of (l ++ [c])) acc
    = lu_digit c (Decimal.revapp (lu_of l) acc).
Proof.
  induction l as [|x l IH]; intros acc; cbn [app lu_of].
  - now rewrite revapp_lu_digit.
  - now rewrite !revapp_lu_digit, IH.
Qed.

Lemma of_lu_lu_of l :
  Forall digit_ok l ->
  0 <= magnitude_of l
  /\ DecimalPos.Unsigned.of_lu (lu_of l) = Z.to_N (magnitude_of l).
Proof.
  induction l as [|c l IH]; intros Hok.
  - split; [cbn; lia | reflexivity].
  - apply Forall_cons in Hok as [Hc Hok]. destruct (IH Hok) as [Hm Hlu].
    cbn [lu_of magnitude_of]. rewrite DecimalPos.Unsigned.of_lu_eqn.
    digit_cases Hc; cbn [lu_digit Z.eqb Pos.eqb DecimalPos.Unsigned.hd
                         DecimalPos.Unsigned.tl];
      rewrite Hlu; unfold BASE, chr_0; split; lia.
Qed.

Lemma string_of_revapp l :
  Forall digit_ok l ->
  forall acc,
    DecimalString.NilEmpty.string_of_uint (Decimal.revapp (lu_of l) acc)
    = text_of (rev l) +:+ DecimalString.NilEmpty.string_of_uint acc.
Proof.
  induction l as [|c l IH]; intros Hok acc; [reflexivity|].
  apply Forall_cons in Hok as [Hc Hok].
  cbn [lu_of rev]. rewrite revapp_lu_digit, IH, text_of_app by exact Hok.
  rewrite append_assoc_text. f_equal.
  digit_cases Hc; reflexivity.
Qed.

(** A sequence whose last digit is not 0 is a numeral without a leading
    zero. *)
Lemma lu_of_nzhead l c :
  last l = Some c -> digit_ok c -> c <> chr_0 ->
  Decimal.nzhead (Decimal.rev (lu_of l)) = Decimal.rev (lu_of l)
  /\ Decimal.rev (lu_of l) <> Decimal.Nil.
Proof.
  intros Hlast Hc Hnz. apply last_Some in Hlast as [l' ->].
  unfold Decimal.rev. rewrite revapp_lu_of_snoc.
  digit_cases Hc; try (now split); now contradiction Hnz.
Qed.

Lemma last_digit_ok l c :
  Forall digit_ok l -> last l = Some c -> digit_ok c.
Proof.
  intros Hok Hlast. apply last_Some in Hlast as [l' ->].
  apply Forall_app in Hok as [_ Hok]. now inversion Hok.
Qed.

Lemma to_int_of_digits s l c :
  Forall digit_ok l -> last l = Some c -> c <> chr_0 ->
  Z.to_int (value (mkBigInteger s l))
  = match s with
    | POSITIVE => Decimal.Pos (Decimal.rev (lu_of l))
    | NEGATIVE => Decimal.Neg (Decimal.rev (lu_of l))
    end.
Proof.
  intros Hok Hlast Hnz.
  pose proof (last_digit_ok l c Hok Hlast) as Hc.
  destruct (lu_of_nzhead l c Hlast Hc Hnz) as [Hhead Hnil].
  destruct (of_lu_lu_of l Hok) as [Hm Hlu].
  set (U := Decimal.rev (lu_of l)) in *.
  assert (Z.of_uint U = magnitude_of l) as HU.
  { unfold Z.of_uint, U.
    rewrite DecimalPos.Unsigned.of_uint_alt, DecimalFacts.rev_rev, Hlu. lia. }
  destruct s; unfold value, magnitude; cbn [m_sign m_data].
  - replace (magnitude_of l) with (Z.of_int (Decimal.Pos U)) by exact HU.
    rewrite DecimalZ.to_of. cbn [Decimal.norm]. unfold Decimal.unorm.
    rewrite Hhead. destruct U; [now contradiction Hnil | reflexivity..].
  - replace (- magnitude_of l) with (Z.of_int (Decimal.Neg U))
      by (cbn [Z.of_int]; now rewrite HU).
    rewrite DecimalZ.to_of. cbn [Decimal.norm].
    rewrite Hhead. destruct U; [now contradiction Hnil | reflexivity..].
Qed.

(** [to_string] gives the canonical decimal text of the value for every
    object that keeps the invariants of the class: decimal digits, no
    leading zero, and the POSITIVE flag when there is no digit. *)
Lemma to_string_canonical this :
  digits_ok this -> normalized this = true ->
  (m_data this = [] -> m_sign this = POSITIVE) ->
  to_string this = canonical_text (value this).
Proof.
  intros Hok Hnorm Hzero. rewrite to_string_shape by exact Hok.
  apply digits_ok_Forall in Hok. destruct this as [s l].
  cbn [m_data m_sign] in *. unfold normalized in Hnorm. cbn [m_data] in Hnorm.
  destruct (last l) as [c|] eqn:Hlast.
  - apply negb_true_iff, Z.eqb_neq in Hnorm.
    assert (c <> chr_0) as Hnz by lia.
    unfold canonical_text. rewrite (to_int_of_digits s l c Hok Hlast Hnz).
    destruct (lu_of_nzhead l c Hlast (last_digit_ok l c Hok Hlast) Hnz)
      as [_ Hnil].
    assert (DecimalString.NilZero.string_of_uint (Decimal.rev (lu_of l))
            = text_of (rev l)) as Htext.
    { unfold DecimalString.NilZero.string_of_uint.
      rewrite <- (append_empty_r (text_of (rev l))).
      change EmptyString
        with (DecimalString.NilEmpty.string_of_uint Decimal.Nil).
      rewrite <- (string_of_revapp l Hok Decimal.Nil).
      fold (Decimal.rev (lu_of l)).
      destruct (Decimal.rev (lu_of l)); [now contradiction Hnil | reflexivity..]. }
    assert (exists a t, text_of (rev l) = String a t) as (a & t & Ht).
    { apply last_Some in Hlast as [l' ->]. rewrite rev_app_distr.
      cbn [rev app text_of]. eexists _, _. reflexivity. }
    destruct s; cbn [is_negative m_sign Sign_eqb
                     DecimalString.NilZero.string_of_int];
      rewrite Htext, Ht; reflexivity.
  - apply last_None in Hlast. subst l. rewrite (Hzero eq_refl). reflexivity.
Qed.

(** Away from the most negative [int], rendering the object built from
    [num] gives the canonical decimal text of [num]. *)
Lemma int_round_trip num :
  INT_MIN < num <= INT_MAX ->
  to_string (BigInteger_int num) = canonical_text num.
Proof.
  intros Hnum.
  destruct (BigInteger_int_spec num Hnum) as (Hval & Hok & Hnorm & Hsign).
  rewrite <- Hval at 2. apply to_string_canonical; [exact Hok | exact Hnorm |].
  intros Hempty. rewrite Hsign. destruct (num <? 0) eqn:Hneg; [|reflexivity].
  apply Z.ltb_lt in Hneg. unfold value, magnitude in Hval.
  rewrite Hempty in Hval. cbn [magnitude_of] in Hval.
  destruct (m_sign (BigInteger_int num)); lia.
Qed.

(** ** C8 *)

(** C8 fails on the code at the most negative [int]: [num *= -1] leaves it
    negative, the remainders pushed are negative, and the characters
    stored lie below '0', so the text is not the canonical decimal text
    "-2147483648".  One above it the text is canonical, as it is for every
    other [int] ([int_round_trip]). *)
Theorem int_min_renders_wrong :
  to_string (BigInteger_int INT_MIN) = "-./,),(-*,("%string
  /\ canonical_text INT_MIN = "-2147483648"%string
  /\ to_string (BigInteger_int INT_MIN) <> canonical_text INT_MIN
  /\ to_string (BigInteger_int (INT_MIN + 1)) = canonical_text (INT_MIN + 1)
  /\ to_string (BigInteger_int 0) = "0"%string.
Proof.
  split; [reflexivity|]. split; [reflexivity|].
  split; [discriminate|]. split; reflexivity.
Qed.

(** * Further properties of the code *)

(** ** The digit accessors *)

Lemma get_digit_out_of_range this pos :
  in_range this pos = false -> get_digit this pos = 0.
Proof. unfold get_digit. now intros ->. Qed.

Lemma get_digit_change_digit this pos val this' q :
  change_digit this pos val = Ok this' ->
  get_digit this' q
  = if q =? pos then to_char (val + chr_0) - chr_0 else get_digit this q.
Proof.
  unfold change_digit. destruct (in_range this pos) eqn:Hin; [|discriminate].
  intros [= <-]. apply in_range_iff in Hin.
  unfold get_digit, in_range, count. cbn [m_data]. rewrite length_insert.
  destruct ((0 <=? q) && (q <? Z.of_nat (length (m_data this)))) eqn:Hq.
  - apply andb_true_iff in Hq as [Hq0 Hq1].
    apply Z.leb_le in Hq0. apply Z.ltb_lt in Hq1.
    destruct (q =? pos) eqn:E.
    + apply Z.eqb_eq in E. subst q.
      now rewrite list_lookup_insert_eq by lia.
    + apply Z.eqb_neq in E. now rewrite list_lookup_insert_ne by lia.
  - destruct (q =? pos) eqn:E; [|reflexivity].
    apply Z.eqb_eq in E. subst q. unfold count in Hin.
    apply andb_false_iff in Hq as [Hq | Hq];
      [apply Z.leb_gt in Hq | apply Z.ltb_ge in Hq]; lia.
Qed.

(** X1.  A digit written in range is the digit read back there, the other
    positions, the length and the sign are as before. *)
Theorem change_then_get_digit (this : BigInteger) (pos val : Z) :
  0 <= pos < count this -> 0 <= val <= 9 ->
  exists this',
    change_digit this pos val = Ok this'
    /\ get_digit this' pos = val
    /\ (forall q, q <> pos -> get_digit this' q = get_digit this q)
    /\ count this' = count this
    /\ m_sign this' = m_sign this.
Proof.
  intros Hpos Hval.
  assert (in_range this pos = true) as Hin by now apply in_range_iff.
  eexists. split; [apply (change_digit_in_range _ _ _ Hin)|].
  pose proof (change_digit_in_range this pos val Hin) as Hcd.
  split.
  { rewrite (get_digit_change_digit _ _ _ _ _ Hcd), Z.eqb_refl.
    rewrite to_char_small by (unfold chr_0; lia). lia. }
  split.
  { intros q Hq. rewrite (get_digit_change_digit _ _ _ _ _ Hcd).
    now replace (q =? pos) with false by (symmetry; now apply Z.eqb_neq). }
  split; [apply (change_digit_count _ _ _ _ Hcd) | reflexivity].
Qed.

Lemma change_then_get_digit_witness :
  exists this',
    change_digit (BigInteger_int 120) 1 7 = Ok this'
    /\ get_digit this' 1 = 7
    /\ (forall q, q <> 1 -> get_digit this' q = get_digit (BigInteger_int 120) q)
    /\ count this' = count (BigInteger_int 120)
    /\ m_sign this' = m_sign (BigInteger_int 120).
Proof.
  apply (change_then_get_digit (BigInteger_int 120) 1 7).
  - vm_compute. split; [discriminate | reflexivity].
  - lia.
Defined.

(** X2.  [push_digit] adds the digit at the most significant end: it is read
    back at the old length, and the positions below are as before. *)
Theorem push_then_get_digit (this : BigInteger) (val : Z) :
  0 <= val <= 9 ->
  get_digit (push_digit this val) (count this) = val
  /\ (forall q, q < count this ->
        get_digit (push_digit this val) q = get_digit this q)
  /\ count (push_digit this val) = count this + 1.
Proof.
  intros Hval. split; [|split; [|apply push_digit_count]].
  - destruct this as [s d]. unfold push_digit, count. cbn [m_sign m_data].
    rewrite (get_digit_middle s d _ []).
    rewrite to_char_small by (unfold chr_0; lia). lia.
  - intros q Hq. unfold get_digit.
    destruct (in_range this q) eqn:Hin.
    + assert (in_range (push_digit this val) q = true) as ->.
      { apply in_range_iff. apply in_range_iff in Hin.
        rewrite push_digit_count. lia. }
      apply in_range_iff in Hin. unfold count in Hin.
      unfold push_digit. cbn [m_data]. now rewrite lookup_app_l by lia.
    + assert (in_range (push_digit this val) q = false) as ->; [|reflexivity].
      unfold in_range in *. rewrite push_digit_count.
      apply andb_false_iff in Hin as [Hin | Hin].
      * now rewrite Hin.
      * apply Z.ltb_ge in Hin. pose proof (count_nonneg this). lia.
Qed.

Lemma push_then_get_digit_witness :
  get_digit (push_digit (BigInteger_int 120) 4) (count (BigInteger_int 120)) = 4
  /\ (forall q, q < count (BigInteger_int 120) ->
        get_digit (push_digit (BigInteger_int 120) 4) q
        = get_digit (BigInteger_int 120) q)
  /\ count (push_digit (BigInteger_int 120) 4) = count (BigInteger_int 120) + 1.
Proof. apply (push_then_get_digit (BigInteger_int 120) 4). lia. Defined.

(** ** Comparison *)

Lemma equal_loop_spec this rhs n :
  forall i,
    equal_loop n i this rhs = true
    <-> (forall j, i <= j < i + Z.of_nat n ->
           get_digit this j = get_digit rhs j).
Proof.
  induction n as [|n IH]; intros i; cbn [equal_loop].
  - split; [intros _ j Hj; lia | reflexivity].
  - destruct (get_digit this i =? get_digit rhs i) eqn:E; cbn [negb].
    + apply Z.eqb_eq in E. rewrite IH. split.
      * intros H j Hj. destruct (Z.eq_dec j i) as [-> | Hne]; [exact E|].
        apply H. lia.
      * intros H j Hj. apply H. lia.
    + apply Z.eqb_neq in E. split; [discriminate|].
      intros H. exfalso. apply E, H. lia.
Qed.

Lemma get_digit_in_range this k :
  (k < length (m_data this))%nat ->
  exists c, m_data this !! k = Some c
            /\ get_digit this (Z.of_nat k) = c - chr_0.
Proof.
  intros Hk. destruct (lookup_lt_is_Some_2 (m_data this) k Hk) as [c Hc].
  exists c. split; [exact Hc | now apply get_digit_lookup].
Qed.

Lemma Sign_eqb_eq a b : Sign_eqb a b = true <-> a = b.
Proof. destruct a, b; cbn; split; congruence. Qed.

Lemma equal_iff_eq (lhs rhs : BigInteger) :
  op_eq lhs rhs = true <-> lhs = rhs.
Proof.
  unfold op_eq, equal. split.
  - destruct (negb (count lhs =? count rhs) || negb (Sign_eqb _ _)) eqn:E;
      [discriminate|].
    apply orb_false_iff in E as [En Es].
    apply negb_false_iff, Z.eqb_eq in En. apply negb_false_iff, Sign_eqb_eq in Es.
    intros Hloop. rewrite equal_loop_spec in Hloop.
    destruct lhs as [s1 d1], rhs as [s2 d2]. cbn [m_sign] in Es. subst s2.
    f_equal. unfold count in En, Hloop. cbn [m_data] in En, Hloop.
    apply (list_eq_same_length d1 d2 (length d1)); [lia | reflexivity |].
    intros i x y Hi Hx Hy.
    specialize (Hloop (Z.of_nat i) ltac:(lia)).
    rewrite (get_digit_lookup (mkBigInteger s1 d1) i x Hx) in Hloop.
    rewrite (get_digit_lookup (mkBigInteger s1 d2) i y Hy) in Hloop. lia.
  - intros ->. rewrite Z.eqb_refl.
    replace (Sign_eqb (m_sign rhs) (m_sign rhs)) with true
      by (symmetry; now apply Sign_eqb_eq).
    cbn [negb orb]. apply equal_loop_spec. reflexivity.
Qed.

(** X3.  [operator==] answers true exactly on objects with the same sign flag
    and the same stored characters. *)
Theorem op_eq_structural (lhs rhs : BigInteger) :
  op_eq lhs rhs = true <-> lhs = rhs.
Proof. exact (equal_iff_eq lhs rhs). Qed.

Lemma sign_flags this : is_negative this = negb (is_positive this).
Proof. unfold is_negative, is_positive. now destruct (m_sign this). Qed.

(** The loop of [less_than] on two objects of one sign: it answers true
    one way round, or the other, or the digits below [k] agree. *)
Lemma less_than_loop_cases this rhs k :
  is_positive this = is_positive rhs ->
  (less_than_loop k this rhs = true /\ less_than_loop k rhs this = false
   /\ exists j, 0 <= j < Z.of_nat k /\ get_digit this j <> get_digit rhs j)
  \/ (less_than_loop k this rhs = false /\ less_than_loop k rhs this = true
      /\ exists j, 0 <= j < Z.of_nat k /\ get_digit this j <> get_digit rhs j)
  \/ (less_than_loop k this rhs = false /\ less_than_loop k rhs this = false
      /\ forall j, 0 <= j < Z.of_nat k -> get_digit this j = get_digit rhs j).
Proof.
  intros Hs. induction k as [|k IH].
  - right. right. repeat split. intros j Hj. lia.
  - cbn [less_than_loop]. rewrite !sign_flags, <- Hs.
    set (x := get_digit this (Z.of_nat k)).
    set (y := get_digit rhs (Z.of_nat k)).
    destruct (Z.lt_total x y) as [Hlt | [Heq | Hgt]].
    + replace (x <? y) with true by (symmetry; now apply Z.ltb_lt).
      replace (y <? x) with false by (symmetry; apply Z.ltb_ge; lia).
      replace (y >? x) with true by (symmetry; apply Z.gtb_lt; lia).
      assert (exists j, 0 <= j < Z.of_nat (S k)
                        /\ get_digit this j <> get_digit rhs j) as Hex
        by (exists (Z.of_nat k); split; [lia | fold x y; lia]).
      destruct (is_positive this); cbn [negb]; [left | right; left];
        now repeat split.
    + replace (x <? y) with false by (symmetry; apply Z.ltb_ge; lia).
      replace (y <? x) with false by (symmetry; apply Z.ltb_ge; lia).
      replace (x >? y) with false by (rewrite Z.gtb_ltb; symmetry; apply Z.ltb_ge; lia).
      replace (y >? x) with false by (rewrite Z.gtb_ltb; symmetry; apply Z.ltb_ge; lia).
      destruct IH as [(H1 & H2 & j & Hj & Hne) | [(H1 & H2 & j & Hj & Hne) | (H1 & H2 & Hall)]].
      * left. repeat split; try assumption. exists j. split; [lia | exact Hne].
      * right. left. repeat split; try assumption.
        exists j. split; [lia | exact Hne].
      * right. right. repeat split; try assumption. intros j Hj.
        destruct (Z.eq_dec j (Z.of_nat k)) as [-> | Hne]; [exact Heq|].
        apply Hall. lia.
    + replace (x <? y) with false by (symmetry; apply Z.ltb_ge; lia).
      replace (x >? y) with true by (symmetry; apply Z.gtb_lt; lia).
      replace (y <? x) with true by (symmetry; now apply Z.ltb_lt).
      assert (exists j, 0 <= j < Z.of_nat (S k)
                        /\ get_digit this j <> get_digit rhs j) as Hex
        by (exists (Z.of_nat k); split; [lia | fold x y; lia]).
      destruct (is_positive this); cbn [negb]; [right; left | left];
        now repeat split.
Qed.

Lemma less_than_trichotomy (a b : BigInteger) :
  (op_lt a b = true /\ op_eq a b = false /\ op_gt a b = false)
  \/ (op_lt a b = false /\ op_eq a b = true /\ op_gt a b = false)
  \/ (op_lt a b = false /\ op_eq a b = false /\ op_gt a b = true).
Proof.
  unfold op_gt, op_lt, op_eq, less_than, equal.
  rewrite !sign_flags. unfold is_positive.
  destruct (m_sign a) eqn:Sa, (m_sign b) eqn:Sb; cbn [Sign_eqb negb orb andb];
    try (rewrite !orb_true_r; cbn; tauto).
  all: rewrite ?orb_false_r, ?andb_true_r, ?andb_false_r, ?orb_false_l.
  all: rewrite (Z.eqb_sym (count b) (count a)).
  all: destruct (Z.lt_total (count a) (count b)) as [Hlt | [Heq | Hgt]].
  all: try (replace (count a =? count b) with false
              by (symmetry; apply Z.eqb_neq; lia);
            cbn [negb];
            rewrite ?(proj2 (Z.ltb_lt _ _)), ?(proj2 (Z.gtb_lt _ _)) by lia;
            rewrite ?(proj2 (Z.ltb_ge _ _)) by lia;
            rewrite ?Z.gtb_ltb, ?(proj2 (Z.ltb_ge _ _)) by lia;
            rewrite ?(proj2 (Z.ltb_lt _ _)) by lia;
            cbn; tauto).
  all: rewrite Heq, Z.eqb_refl; cbn [negb].
  all: destruct (less_than_loop_cases a b (Z.to_nat (count b)))
         as [(H1 & H2 & j & Hj & Hne) | [(H1 & H2 & j & Hj & Hne)
                                        | (H1 & H2 & Hall)]];
         [unfold is_positive; now rewrite Sa, Sb | | | ].
  all: rewrite <- ?Heq in *; rewrite H1, H2.
  all: try (assert (equal_loop (Z.to_nat (count a)) 0 a b = false) as ->
              by (destruct (equal_loop _ 0 a b) eqn:E; [|reflexivity];
                  rewrite equal_loop_spec in E; exfalso; apply Hne, E; lia);
            tauto).
  all: assert (equal_loop (Z.to_nat (count a)) 0 a b = true) as ->
         by (apply equal_loop_spec; intros j Hj; apply Hall; lia);
       tauto.
Qed.

(** X4.  For all objects, exactly one of [a < b], [a == b], [a > b] is true: the
    order of [less_than] is total on the stored representations. *)
Theorem op_lt_trichotomy (a b : BigInteger) :
  (op_lt a b = true /\ op_eq a b = false /\ op_gt a b = false)
  \/ (op_lt a b = false /\ op_eq a b = true /\ op_gt a b = false)
  \/ (op_lt a b = false /\ op_eq a b = false /\ op_gt a b = true).
Proof. exact (less_than_trichotomy a b). Qed.

(** ** Digit sequences and the numbers they stand for *)

Lemma magnitude_of_bounds l :
  Forall digit_ok l -> 0 <= magnitude_of l < BASE ^ Z.of_nat (length l).
Proof.
  induction l as [|c l IH]; intros Hok.
  - cbn. lia.
  - apply Forall_cons in Hok as [Hc Hok]. specialize (IH Hok).
    unfold digit_ok, chr_0 in Hc. cbn [magnitude_of length].
    rewrite Nat2Z.inj_succ, Z.pow_succ_r by lia. unfold BASE, chr_0 in *. lia.
Qed.

Lemma magnitude_of_snoc l c :
  magnitude_of (l ++ [c])
  = magnitude_of l + BASE ^ Z.of_nat (length l) * (c - chr_0).
Proof. rewrite magnitude_of_app. cbn [magnitude_of]. lia. Qed.

(** Without a leading zero, [n] digits stand for a number of at least
    [10 ^ (n - 1)]. *)
Lemma magnitude_of_lower l c :
  Forall digit_ok l -> last l = Some c -> c <> chr_0 ->
  BASE ^ (Z.of_nat (length l) - 1) <= magnitude_of l.
Proof.
  intros Hok Hlast Hnz. apply last_Some in Hlast as [l' ->].
  apply Forall_app in Hok as [Hok' Hc]. inversion Hc as [|? ? Hc' _]; subst.
  unfold digit_ok in Hc'. pose proof (magnitude_of_bounds l' Hok') as Hb.
  rewrite magnitude_of_snoc, length_app. cbn [length].
  replace (Z.of_nat (length l' + 1) - 1) with (Z.of_nat (length l')) by lia.
  assert (0 < BASE ^ Z.of_nat (length l')) by (apply Z.pow_pos_nonneg; unfold BASE; lia).
  nia.
Qed.

Lemma magnitude_of_inj l1 :
  forall l2,
    Forall digit_ok l1 -> Forall digit_ok l2 -> length l1 = length l2 ->
    magnitude_of l1 = magnitude_of l2 -> l1 = l2.
Proof.
  induction l1 as [|c1 l1 IH]; intros [|c2 l2] H1 H2 Hlen Hmag;
    try discriminate; [reflexivity|].
  apply Forall_cons in H1 as [Hc1 H1]. apply Forall_cons in H2 as [Hc2 H2].
  cbn [magnitude_of] in Hmag. unfold digit_ok, chr_0, BASE in *.
  assert (c1 = c2 /\ magnitude_of l1 = magnitude_of l2) as [-> Hm] by lia.
  f_equal. apply IH; auto.
Qed.

Lemma well_formed_iff this :
  well_formed this
  <-> digits_ok this /\ normalized this = true
      /\ (m_data this = [] -> m_sign this = POSITIVE).
Proof.
  unfold well_formed, well_formedb, digits_ok.
  rewrite !andb_true_iff, orb_true_iff, negb_true_iff, Nat.eqb_neq.
  unfold is_positive. rewrite Sign_eqb_eq.
  split.
  - intros [[H1 H2] H3]. repeat split; try assumption.
    intros He. destruct H3 as [H3 | H3]; [|exact H3]. now rewrite He in H3.
  - intros (H1 & H2 & H3). repeat split; try assumption.
    destruct (m_data this) eqn:E; [right; now apply H3|].
    left. discriminate.
Qed.

(** A well-formed object with digits has a non-zero magnitude. *)
Lemma well_formed_magnitude this :
  well_formed this ->
  Forall digit_ok (m_data this)
  /\ 0 <= magnitude this < BASE ^ count this
  /\ (m_data this <> [] -> BASE ^ (count this - 1) <= magnitude this)
  /\ (m_sign this = NEGATIVE -> 0 < magnitude this).
Proof.
  intros Hwf. apply well_formed_iff in Hwf as (Hok & Hnorm & Hzero).
  apply digits_ok_Forall in Hok. unfold magnitude, count.
  split; [exact Hok|]. split; [now apply magnitude_of_bounds|].
  assert (m_data this <> [] ->
          BASE ^ (Z.of_nat (length (m_data this)) - 1)
          <= magnitude_of (m_data this)) as Hlow.
  { intros Hne. unfold normalized in Hnorm.
    destruct (last (m_data this)) as [c|] eqn:Hlast.
    - apply negb_true_iff, Z.eqb_neq in Hnorm.
      apply (magnitude_of_lower _ c); [exact Hok | exact Hlast | lia].
    - now apply last_None in Hlast. }
  split; [exact Hlow|]. intros Hneg.
  assert (m_data this <> []) as Hne
    by (intros He; rewrite (Hzero He) in Hneg; discriminate).
  specialize (Hlow Hne).
  assert (0 < BASE ^ (Z.of_nat (length (m_data this)) - 1)).
  { apply Z.pow_pos_nonneg; [unfold BASE; lia|].
    destruct (m_data this); [contradiction | cbn [length]; lia]. }
  lia.
Qed.

(** The loop of [less_than] over the [k] lowest digits of two objects of
    one sign compares the numbers these digits stand for. *)
Lemma less_than_loop_numeric this rhs k :
  is_positive this = is_positive rhs ->
  Forall digit_ok (m_data this) -> Forall digit_ok (m_data rhs) ->
  (k <= length (m_data this))%nat -> (k <= length (m_data rhs))%nat ->
  less_than_loop k this rhs
  = if is_positive this
    then magnitude_of (take k (m_data this)) <? magnitude_of (take k (m_data rhs))
    else magnitude_of (take k (m_data rhs)) <? magnitude_of (take k (m_data this)).
Proof.
  intros Hs Ha Hb. induction k as [|k IH]; intros Hka Hkb.
  - cbn. now destruct (is_positive this).
  - cbn [less_than_loop]. rewrite sign_flags.
    destruct (get_digit_in_range this k Hka) as (x & Hx & ->).
    destruct (get_digit_in_range rhs k Hkb) as (y & Hy & ->).
    rewrite (take_S_r _ _ _ Hx), (take_S_r _ _ _ Hy), !magnitude_of_snoc.
    rewrite !length_take_le by lia.
    pose proof (magnitude_of_bounds (take k (m_data this))
                  (Forall_take _ _ _ Ha)) as Ba.
    pose proof (magnitude_of_bounds (take k (m_data rhs))
                  (Forall_take _ _ _ Hb)) as Bb.
    rewrite !length_take_le in Ba, Bb by lia.
    rewrite IH by lia.
    set (P := BASE ^ Z.of_nat k) in *.
    set (ma := magnitude_of (take k (m_data this))) in *.
    set (mb := magnitude_of (take k (m_data rhs))) in *.
    destruct (Z.lt_total x y) as [Hlt | [Heq | Hgt]].
    + replace (x - chr_0 <? y - chr_0) with true
        by (symmetry; apply Z.ltb_lt; lia).
      destruct (is_positive this); cbn [negb]; symmetry;
        [apply Z.ltb_lt | apply Z.ltb_ge]; nia.
    + subst y.
      replace (x - chr_0 <? x - chr_0) with false
        by (symmetry; apply Z.ltb_irrefl).
      replace (x - chr_0 >? x - chr_0) with false
        by (rewrite Z.gtb_ltb; symmetry; apply Z.ltb_irrefl).
      destruct (is_positive this);
        [destruct (ma <? mb) eqn:E | destruct (mb <? ma) eqn:E]; symmetry;
        first [apply Z.ltb_lt; apply Z.ltb_lt in E; lia
              | apply Z.ltb_ge; apply Z.ltb_ge in E; lia].
    + replace (x - chr_0 <? y - chr_0) with false
        by (symmetry; apply Z.ltb_ge; lia).
      replace (x - chr_0 >? y - chr_0) with true
        by (symmetry; apply Z.gtb_lt; lia).
      destruct (is_positive this); cbn [negb]; symmetry;
        [apply Z.ltb_ge | apply Z.ltb_lt]; nia.
Qed.

Lemma shorter_is_smaller a b :
  well_formed a -> well_formed b -> count a < count b ->
  magnitude a < magnitude b.
Proof.
  intros Ha Hb Hlt.
  destruct (well_formed_magnitude a Ha) as (_ & Ba & _ & _).
  destruct (well_formed_magnitude b Hb) as (_ & _ & Lb & _).
  assert (m_data b <> []) as Hne.
  { intros He. unfold count in Hlt. rewrite He in Hlt. cbn in Hlt. lia. }
  specialize (Lb Hne).
  assert (BASE ^ count a <= BASE ^ (count b - 1))
    by (apply Z.pow_le_mono_r; [unfold BASE; lia | lia]).
  lia.
Qed.

Lemma less_than_numeric (a b : BigInteger) :
  well_formed a -> well_formed b ->
  op_lt a b = (value a <? value b).
Proof.
  intros Ha Hb.
  destruct (well_formed_magnitude a Ha) as (Oa & Ba & _ & Na).
  destruct (well_formed_magnitude b Hb) as (Ob & Bb & _ & Nb).
  unfold op_lt, less_than, value. rewrite sign_flags.
  destruct (Z.lt_total (count a) (count b)) as [Hlt | [Heq | Hgt]].
  - pose proof (shorter_is_smaller a b Ha Hb Hlt) as Hm.
    replace (count a =? count b) with false by (symmetry; apply Z.eqb_neq; lia).
    replace (count a <? count b) with true by (symmetry; apply Z.ltb_lt; lia).
    replace (count a >? count b) with false
      by (rewrite Z.gtb_ltb; symmetry; apply Z.ltb_ge; lia).
    unfold is_positive.
    destruct (m_sign a), (m_sign b); cbn [Sign_eqb negb andb orb]; symmetry;
      first [apply Z.ltb_lt | apply Z.ltb_ge];
      try specialize (Na eq_refl); try specialize (Nb eq_refl); lia.
  - replace (count a =? count b) with true by (symmetry; apply Z.eqb_eq; lia).
    cbn [negb].
    assert (is_positive a = is_positive b ->
            less_than_loop (Z.to_nat (count a)) a b
            = if is_positive a then magnitude a <? magnitude b
              else magnitude b <? magnitude a) as Hloop.
    { intros Hs. unfold count in *.
      rewrite (less_than_loop_numeric a b _ Hs Oa Ob) by lia.
      rewrite !take_ge by lia. reflexivity. }
    unfold is_positive in *.
    destruct (m_sign a), (m_sign b); cbn [Sign_eqb negb] in *;
      try (rewrite (Hloop eq_refl));
      try specialize (Na eq_refl); try specialize (Nb eq_refl);
      first [ reflexivity
            | destruct (magnitude b <? magnitude a) eqn:E; symmetry;
              [apply Z.ltb_lt; apply Z.ltb_lt in E; lia
              |apply Z.ltb_ge; apply Z.ltb_ge in E; lia]
            | symmetry; first [apply Z.ltb_lt | apply Z.ltb_ge]; lia ].
  - pose proof (shorter_is_smaller b a Hb Ha ltac:(lia)) as Hm.
    replace (count a =? count b) with false by (symmetry; apply Z.eqb_neq; lia).
    replace (count a <? count b) with false by (symmetry; apply Z.ltb_ge; lia).
    replace (count a >? count b) with true by (symmetry; apply Z.gtb_lt; lia).
    unfold is_positive.
    destruct (m_sign a), (m_sign b); cbn [Sign_eqb negb andb orb]; symmetry;
      first [apply Z.ltb_lt | apply Z.ltb_ge];
      try specialize (Na eq_refl); try specialize (Nb eq_refl); lia.
Qed.

(** X5.  On well-formed objects [operator<] is the order of the numbers they
    stand for. *)
Theorem op_lt_numeric (a b : BigInteger) :
  well_formed a -> well_formed b ->
  op_lt a b = (value a <? value b).
Proof. exact (less_than_numeric a b). Qed.

Lemma op_lt_numeric_witness :
  op_lt (BigInteger_int (-50)) (BigInteger_int (-5))
  = (value (BigInteger_int (-50)) <? value (BigInteger_int (-5))).
Proof.
  apply (op_lt_numeric (BigInteger_int (-50)) (BigInteger_int (-5)));
    reflexivity.
Defined.

(** Two well-formed objects that stand for the same number are the same
    object. *)
Lemma well_formed_unique a b :
  well_formed a -> well_formed b -> value a = value b -> a = b.
Proof.
  intros Ha Hb Hv.
  destruct (well_formed_magnitude a Ha) as (Oa & Ba & La & Na).
  destruct (well_formed_magnitude b Hb) as (Ob & Bb & Lb & Nb).
  assert (m_sign a = m_sign b /\ magnitude a = magnitude b) as [Hs Hm].
  { unfold value in Hv.
    destruct (m_sign a), (m_sign b);
      try specialize (Na eq_refl); try specialize (Nb eq_refl);
      split; try reflexivity; lia. }
  assert (count a = count b) as Hc.
  { destruct (Z.lt_total (count a) (count b)) as [H | [H | H]]; [|exact H|].
    - pose proof (shorter_is_smaller a b Ha Hb H). lia.
    - pose proof (shorter_is_smaller b a Hb Ha ltac:(lia)). lia. }
  destruct a as [sa da], b as [sb db]. cbn [m_sign m_data] in *. subst sb.
  f_equal. unfold count in Hc. cbn [m_data] in Hc.
  apply magnitude_of_inj; [exact Oa | exact Ob | lia | exact Hm].
Qed.

(** X6.  On well-formed objects [operator==] is equality of the numbers they
    stand for: the representation of a number is unique. *)
Theorem op_eq_numeric (a b : BigInteger) :
  well_formed a -> well_formed b ->
  op_eq a b = (value a =? value b).
Proof.
  intros Ha Hb.
  destruct (op_eq a b) eqn:E; symmetry.
  - apply equal_iff_eq in E. subst b. apply Z.eqb_refl.
  - apply Z.eqb_neq. intros Hv.
    pose proof (well_formed_unique a b Ha Hb Hv) as Hab.
    apply equal_iff_eq in Hab. congruence.
Qed.

Lemma op_eq_numeric_witness :
  op_eq (BigInteger_int 12) (BigInteger_string "1_2")
  = (value (BigInteger_int 12) =? value (BigInteger_string "1_2")).
Proof.
  apply (op_eq_numeric (BigInteger_int 12) (BigInteger_string "1_2"));
    reflexivity.
Defined.

(** ** normalize *)

Lemma magnitude_of_zeros l k :
  magnitude_of (l ++ replicate k chr_0) = magnitude_of l.
Proof.
  rewrite magnitude_of_app.
  assert (magnitude_of (replicate k chr_0) = 0) as ->; [|lia].
  induction k as [|k IH]; [reflexivity|]. cbn [replicate magnitude_of].
  rewrite IH. unfold chr_0. lia.
Qed.

Lemma normalize_loop_spec s :
  forall l,
    let r := normalize_loop (length l) (mkBigInteger s l) in
    m_sign r = s
    /\ normalized r = true
    /\ exists k, l = m_data r ++ replicate k chr_0.
Proof.
  induction l as [|c l IH] using rev_ind.
  - cbn. repeat split. now exists 0%nat.
  - rewrite length_app. cbn [length].
    replace (length l + 1)%nat with (S (length l)) by lia.
    cbn [normalize_loop]. rewrite (get_digit_middle s l c []).
    destruct (c - chr_0 =? 0) eqn:E; cbn [negb].
    + apply Z.eqb_eq in E. assert (c = chr_0) as -> by lia.
      cbn [m_data]. rewrite length_app. cbn [length].
      replace (length l + 1 =? 0)%nat with false
        by (symmetry; apply Nat.eqb_neq; lia).
      unfold pop_back. cbn [m_sign m_data]. rewrite removelast_last.
      destruct IH as (Hs & Hn & k & Hk).
      split; [exact Hs|]. split; [exact Hn|].
      exists (S k). rewrite replicate_S_end, app_assoc. now rewrite <- Hk.
    + split; [reflexivity|]. split.
      * unfold normalized. cbn [m_data]. rewrite last_snoc. now rewrite E.
      * exists 0%nat. cbn [replicate m_data]. now rewrite app_nil_r.
Qed.

Lemma normalize_fixes_normalized this :
  normalized this = true -> normalize this = this.
Proof.
  destruct this as [s l]. unfold normalized, normalize, count. cbn [m_data].
  rewrite Nat2Z.id.
  destruct l as [|c l] using rev_ind; [reflexivity|]. clear IHl.
  rewrite last_snoc, length_app. cbn [length].
  replace (length l + 1)%nat with (S (length l)) by lia.
  intros Hn. cbn [normalize_loop]. rewrite (get_digit_middle s l c []).
  now rewrite Hn.
Qed.

Lemma normalize_spec (this : BigInteger) :
  m_sign (normalize this) = m_sign this
  /\ normalized (normalize this) = true
  /\ (exists k, m_data this = m_data (normalize this) ++ replicate k chr_0)
  /\ magnitude (normalize this) = magnitude this
  /\ normalize (normalize this) = normalize this.
Proof.
  destruct this as [s l].
  destruct (normalize_loop_spec s l) as (Hs & Hn & k & Hk).
  unfold normalize, count. cbn [m_data m_sign]. rewrite Nat2Z.id.
  split; [exact Hs|]. split; [exact Hn|]. split; [now exists k|].
  split.
  - unfold magnitude. cbn [m_data].
    rewrite <- (magnitude_of_zeros _ k). now rewrite <- Hk.
  - fold (count (normalize_loop (length l) (mkBigInteger s l))).
    fold (normalize (normalize_loop (length l) (mkBigInteger s l))).
    now apply normalize_fixes_normalized.
Qed.

(** X7.  [normalize] removes the zero digits at the most significant end and
    nothing else: the sign flag and the number stay, the result has no
    leading zero, and a second [normalize] changes nothing. *)
Theorem normalize_strips_leading_zeros (this : BigInteger) :
  m_sign (normalize this) = m_sign this
  /\ normalized (normalize this) = true
  /\ (exists k, m_data this = m_data (normalize this) ++ replicate k chr_0)
  /\ magnitude (normalize this) = magnitude this
  /\ normalize (normalize this) = normalize this.
Proof. exact (normalize_spec this). Qed.

Lemma normalize_digits_ok this :
  Forall digit_ok (m_data this) -> Forall digit_ok (m_data (normalize this)).
Proof.
  intros Hok.
  destruct (normalize_spec this) as (_ & _ & (k & Hk) & _).
  rewrite Hk in Hok. now apply Forall_app in Hok as [Hok _].
Qed.

(** ** Addition of operands of one sign *)

Lemma get_digit_head s (pre off l : list Z) :
  (l <> [] -> length off = length pre) ->
  (l = [] -> (length off <= length pre)%nat) ->
  get_digit (mkBigInteger s (off ++ l)) (Z.of_nat (length pre)) = head_digit l.
Proof.
  intros Hne Hnil. destruct l as [|c l]; cbn [head_digit].
  - apply get_digit_out_of_range. specialize (Hnil eq_refl).
    unfold in_range, count. cbn [m_data]. rewrite app_nil_r.
    apply andb_false_iff. right. apply Z.ltb_ge. lia.
  - rewrite <- (Hne ltac:(discriminate)). apply get_digit_middle.
Qed.

Lemma head_digit_tail l :
  magnitude_of l = head_digit l + BASE * magnitude_of (tail l).
Proof. destruct l; cbn [magnitude_of head_digit tail]; lia. Qed.

Lemma head_digit_range l :
  Forall digit_ok l -> 0 <= head_digit l <= 9 /\ Forall digit_ok (tail l).
Proof.
  destruct l as [|c l]; intros Hok; cbn [head_digit tail].
  - split; [lia | constructor].
  - apply Forall_cons in Hok as [Hc Hok]. unfold digit_ok, chr_0 in *.
    split; [lia | exact Hok].
Qed.

(** What one turn of the loop of [operator+=] writes: over the next
    stored digit while there is one, at the end afterwards. *)
Lemma add_step_write s (pre sa : list Z) L val :
  (sa <> [] -> L = Z.of_nat (length pre + length sa)) ->
  (sa = [] -> L <= Z.of_nat (length pre)) ->
  (if Z.of_nat (length pre) <? L
   then change_digit (mkBigInteger s (pre ++ sa)) (Z.of_nat (length pre)) val
   else Ok (push_digit (mkBigInteger s (pre ++ sa)) val))
  = Ok (mkBigInteger s ((pre ++ [to_char (val + chr_0)]) ++ tail sa)).
Proof.
  intros Hne Hnil. destruct sa as [|c sa]; cbn [tail].
  - specialize (Hnil eq_refl).
    replace (Z.of_nat (length pre) <? L) with false
      by (symmetry; apply Z.ltb_ge; lia).
    unfold push_digit. cbn [m_sign m_data]. now rewrite !app_nil_r.
  - specialize (Hne ltac:(discriminate)). cbn [length] in Hne.
    replace (Z.of_nat (length pre) <? L) with true
      by (symmetry; apply Z.ltb_lt; lia).
    rewrite change_digit_middle. now rewrite <- app_assoc.
Qed.

Lemma add_loop_spec s s' L :
  forall n pre sa off sb carry,
    Forall digit_ok sa -> Forall digit_ok sb -> 0 <= carry <= 1 ->
    n = Nat.max (length sa) (length sb) ->
    (sa <> [] -> L = Z.of_nat (length pre + length sa)) ->
    (sa = [] -> L <= Z.of_nat (length pre)) ->
    (sb <> [] -> length off = length pre) ->
    (sb = [] -> (length off <= length pre)%nat) ->
    exists out carry',
      for_up n (Z.of_nat (length pre))
        (add_step L (mkBigInteger s' (off ++ sb)))
        (mkBigInteger s (pre ++ sa), carry)
      = Ok (mkBigInteger s (pre ++ out), carry')
      /\ length out = n
      /\ Forall digit_ok out
      /\ 0 <= carry' <= 1
      /\ magnitude_of out + BASE ^ Z.of_nat n * carry'
         = magnitude_of sa + magnitude_of sb + carry.
Proof.
  induction n as [|n IH];
    intros pre sa off sb carry Ha Hb Hc Hn HaL HaL' Hbo Hbo'.
  - assert (sa = [] /\ sb = []) as [-> ->]
      by (destruct sa, sb; cbn [length] in Hn; split; (reflexivity || lia)).
    exists [], carry. cbn [for_up length magnitude_of].
    repeat split; try lia; constructor.
  - cbn [for_up]. unfold add_step at 1.
    rewrite (get_digit_head s pre pre sa) by (intros; lia).
    rewrite (get_digit_head s' pre off sb Hbo Hbo').
    destruct (head_digit_range sa Ha) as [Hda Ha'].
    destruct (head_digit_range sb Hb) as [Hdb Hb'].
    set (sum := head_digit sa + head_digit sb + carry).
    assert (0 <= sum <= 19) as Hsum by (unfold sum; lia).
    rewrite Z.rem_mod_nonneg, Z.quot_div_nonneg by (unfold BASE; lia).
    assert (0 <= sum mod BASE < 10) as Hm
      by (apply Z.mod_pos_bound; reflexivity).
    assert (0 <= sum / BASE <= 1) as Hq.
    { unfold BASE. split; [apply Z.div_pos; lia|].
      enough (sum / 10 < 2) by lia. apply Z.div_lt_upper_bound; lia. }
    assert ((if Z.of_nat (length pre) <? L
             then let* this :=
                    change_digit (mkBigInteger s (pre ++ sa))
                      (Z.of_nat (length pre)) (sum mod BASE) in
                  Ok (this, sum / BASE)
             else Ok (push_digit (mkBigInteger s (pre ++ sa)) (sum mod BASE),
                      sum / BASE))
            = Ok (mkBigInteger s
                    ((pre ++ [to_char (sum mod BASE + chr_0)]) ++ tail sa),
                  sum / BASE)) as ->.
    { pose proof (add_step_write s pre sa L (sum mod BASE) HaL HaL') as Hw.
      destruct (Z.of_nat (length pre) <? L); [now rewrite Hw | now inversion Hw]. }
    cbn [bind]. rewrite to_char_small by (unfold chr_0; lia).
    set (d := sum mod BASE + chr_0).
    assert (off ++ sb = (off ++ firstn 1 sb) ++ tail sb) as ->
      by (destruct sb; cbn [firstn tail]; now rewrite <- ?app_assoc, ?app_nil_r).
    destruct (IH (pre ++ [d]) (tail sa) (off ++ firstn 1 sb) (tail sb)
                (sum / BASE) Ha' Hb' Hq) as (out & carry' & Hrun & Hlen & Hok & Hc' & Hval).
    + destruct sa, sb; cbn [length tail] in *; lia.
    + intros Hne. rewrite length_app. cbn [length].
      destruct sa as [|c sa]; [contradiction|]. cbn [tail length] in *.
      rewrite (HaL ltac:(discriminate)). lia.
    + intros Hnil. rewrite length_app. cbn [length].
      destruct sa as [|c sa].
      * specialize (HaL' eq_refl). lia.
      * cbn [tail] in Hnil. subst sa. rewrite (HaL ltac:(discriminate)).
        cbn [length]. lia.
    + intros Hne. destruct sb as [|c sb]; [contradiction|].
      rewrite !length_app. cbn. rewrite take_0, (Hbo ltac:(discriminate)).
      reflexivity.
    + intros Hnil. rewrite !length_app. cbn [length].
      destruct sb as [|c sb].
      * specialize (Hbo' eq_refl). cbn. lia.
      * rewrite (Hbo ltac:(discriminate)). cbn. rewrite take_0. cbn. lia.
    + rewrite length_app, Nat2Z.inj_add in Hrun. cbn [length] in Hrun.
      change (Z.of_nat 1) with 1 in Hrun. rewrite Hrun.
      exists (d :: out), carry'. rewrite <- app_assoc. cbn [app].
      split; [reflexivity|]. split; [cbn [length]; lia|].
      split; [constructor; [unfold d, digit_ok, chr_0; lia | exact Hok]|].
      split; [exact Hc'|].
      cbn [magnitude_of]. rewrite Nat2Z.inj_succ, Z.pow_succ_r by lia.
      rewrite (head_digit_tail sa), (head_digit_tail sb).
      pose proof (Z.div_mod sum BASE ltac:(unfold BASE; lia)) as Hdm.
      unfold sum in Hdm at 1. rewrite <- Z.mul_assoc. unfold d.
      unfold BASE in *. lia.
Qed.

Lemma carried_props n M l :
  carried n M l ->
  Forall digit_ok l /\ magnitude_of l = M
  /\ (n <= length l <= n + 1)%nat
  /\ (forall c, last l = Some c -> (length l = n + 1)%nat -> c <> chr_0).
Proof.
  intros (out & carry & -> & Hlen & Hok & Hc & HM).
  destruct (carry =? 0) eqn:E.
  - apply Z.eqb_eq in E. subst carry. rewrite app_nil_r.
    split; [exact Hok|]. split; [lia|]. split; [lia|].
    intros c _ Hl. lia.
  - apply Z.eqb_neq in E. rewrite magnitude_of_snoc, length_app, Hlen.
    cbn [length]. split; [|split; [lia|split; [lia|]]].
    + apply Forall_app. split; [exact Hok|].
      constructor; [unfold digit_ok, chr_0; lia | constructor].
    + intros c Hl _. rewrite last_snoc in Hl. injection Hl as <-. lia.
Qed.

Lemma carried_unique n M l1 l2 : carried n M l1 -> carried n M l2 -> l1 = l2.
Proof.
  intros (o1 & c1 & -> & Hl1 & Ho1 & Hc1 & HM1)
         (o2 & c2 & -> & Hl2 & Ho2 & Hc2 & HM2).
  pose proof (magnitude_of_bounds o1 Ho1) as B1.
  pose proof (magnitude_of_bounds o2 Ho2) as B2.
  rewrite Hl1 in B1. rewrite Hl2 in B2.
  assert (0 < BASE ^ Z.of_nat n)
    by (apply Z.pow_pos_nonneg; unfold BASE; lia).
  assert (c1 = c2) as -> by nia.
  assert (o1 = o2) as ->; [|reflexivity].
  apply magnitude_of_inj; [exact Ho1 | exact Ho2 | lia | lia].
Qed.

(** The digit loop of [operator+=] on decimal digits: the sum of the two
    magnitudes under the sign flag of [this]. *)
Lemma add_digits_spec a b :
  Forall digit_ok (m_data a) -> Forall digit_ok (m_data b) ->
  exists r,
    add_digits a b = Ok r
    /\ m_sign r = m_sign a
    /\ carried (Nat.max (length (m_data a)) (length (m_data b)))
         (magnitude a + magnitude b) (m_data r).
Proof.
  intros Ha Hb. destruct a as [s da], b as [s' db]. cbn [m_data m_sign] in *.
  destruct (add_loop_spec s s' (Z.of_nat (length da))
              (Nat.max (length da) (length db)) [] da [] db 0 Ha Hb
              ltac:(lia) eq_refl
              ltac:(intros; cbn [length]; lia)
              ltac:(intros ->; cbn [length]; lia)
              ltac:(intros; reflexivity)
              ltac:(intros; cbn [length]; lia))
    as (out & carry & Hrun & Hlen & Hok & Hc & Hval).
  cbn [app length] in Hrun. change (Z.of_nat 0) with 0 in Hrun.
  unfold add_digits, count. cbn [m_data].
  rewrite <- Nat2Z.inj_max, Nat2Z.id, Hrun. cbn [bind].
  eexists. split; [reflexivity|]. split; [now destruct (negb _)|].
  exists out, carry. unfold magnitude. cbn [m_data].
  repeat split; try assumption; try lia.
  destruct (carry =? 0) eqn:E; cbn [negb]; cbn [m_data];
    [now rewrite app_nil_r|].
  unfold push_digit. cbn [m_data].
  rewrite to_char_small by (unfold chr_0; lia). reflexivity.
Qed.

Lemma sign_flags_equal a b :
  m_sign a = m_sign b ->
  is_positive a = is_positive b /\ is_negative a = is_negative b.
Proof. unfold is_positive, is_negative. now intros ->. Qed.

Lemma value_of_sign r s M :
  m_sign r = s -> magnitude r = M ->
  value r = match s with POSITIVE => M | NEGATIVE => - M end.
Proof. unfold value. now intros -> ->. Qed.

Lemma add_same_sign_digits (a b : BigInteger) (fuel : nat) :
  digits_ok a -> digits_ok b -> m_sign a = m_sign b ->
  exists r,
    op_add (S fuel) a b = Ok r
    /\ value r = value a + value b
    /\ m_sign r = m_sign a
    /\ digits_ok r.
Proof.
  intros Ha Hb Hs. apply digits_ok_Forall in Ha, Hb.
  destruct (sign_flags_equal a b Hs) as [Hp _].
  unfold op_add. rewrite op_add_assign_S, Hp, eqb_reflx. cbn [negb].
  destruct (add_digits_spec a b Ha Hb) as (r & Hr & Hsr & Hshape).
  destruct (carried_props _ _ _ Hshape) as (Hok & Hmag & _).
  exists r. split; [exact Hr|]. split; [|split; [exact Hsr|]].
  - rewrite (value_of_sign r _ _ Hsr Hmag). unfold value. rewrite <- Hs.
    destruct (m_sign a); lia.
  - now apply digits_ok_Forall.
Qed.

(** X8.  [a + b] for operands of one sign flag that store decimal digits: the
    call returns at depth 1 with the sum of the two numbers, the same sign
    flag and decimal digits. *)
Theorem add_same_sign (a b : BigInteger) (fuel : nat) :
  digits_ok a -> digits_ok b -> m_sign a = m_sign b ->
  exists r,
    op_add (S fuel) a b = Ok r
    /\ value r = value a + value b
    /\ m_sign r = m_sign a
    /\ digits_ok r.
Proof. exact (add_same_sign_digits a b fuel). Qed.

Lemma add_same_sign_witness :
  exists r,
    op_add 1 (BigInteger_int (-95)) (BigInteger_int (-7)) = Ok r
    /\ value r = value (BigInteger_int (-95)) + value (BigInteger_int (-7))
    /\ m_sign r = m_sign (BigInteger_int (-95))
    /\ digits_ok r.
Proof.
  apply (add_same_sign (BigInteger_int (-95)) (BigInteger_int (-7)) 0);
    reflexivity.
Defined.



Lemma leading_zero_is_small l :
  Forall digit_ok l -> last l = Some chr_0 ->
  magnitude_of l < BASE ^ (Z.of_nat (length l) - 1).
Proof.
  intros Hok Hlast. apply last_Some in Hlast as [l' ->].
  apply Forall_app in Hok as [Hok _].
  rewrite magnitude_of_snoc, length_app. cbn [length].
  replace (Z.of_nat (length l' + 1) - 1) with (Z.of_nat (length l')) by lia.
  pose proof (magnitude_of_bounds l' Hok). lia.
Qed.

(** A sequence left by a digit loop has no leading zero as soon as it
    stands for a number of at least [10 ^ (n - 1)]. *)
Lemma carried_normalized n M l s :
  carried n M l -> (n <> 0%nat -> BASE ^ (Z.of_nat n - 1) <= M) ->
  normalized (mkBigInteger s l) = true.
Proof.
  intros Hc HM. destruct (carried_props _ _ _ Hc) as (Hok & Hmag & Hlen & Hlast).
  unfold normalized. cbn [m_data].
  destruct (last l) as [c|] eqn:El; [|reflexivity].
  apply negb_true_iff, Z.eqb_neq. intros Hz. assert (c = chr_0) as -> by lia.
  assert (length l = n \/ length l = (n + 1)%nat) as [Hn | Hn] by lia.
  - pose proof (leading_zero_is_small l Hok El) as Hsmall.
    rewrite Hn in Hsmall. apply last_Some in El as [l' ->].
    rewrite length_app in Hn. cbn [length] in Hn.
    specialize (HM ltac:(lia)). lia.
  - now apply (Hlast chr_0 eq_refl Hn).
Qed.

Lemma add_well_formed_spec (a b : BigInteger) (fuel : nat) :
  well_formed a -> well_formed b -> m_sign a = m_sign b ->
  exists r,
    op_add (S fuel) a b = Ok r
    /\ well_formed r
    /\ value r = value a + value b.
Proof.
  intros Ha Hb Hs.
  destruct (well_formed_magnitude a Ha) as (Oa & Ba & La & _).
  destruct (well_formed_magnitude b Hb) as (Ob & Bb & Lb & _).
  destruct (sign_flags_equal a b Hs) as [Hp _].
  unfold op_add. rewrite op_add_assign_S, Hp, eqb_reflx. cbn [negb].
  destruct (add_digits_spec a b Oa Ob) as (r & Hr & Hsr & Hshape).
  destruct (carried_props _ _ _ Hshape) as (Hok & Hmag & Hlen & _).
  exists r. split; [exact Hr|]. split.
  - apply well_formed_iff. split; [now apply digits_ok_Forall|]. split.
    + destruct r as [sr dr]. cbn [m_data] in *.
      apply (carried_normalized _ _ _ _ Hshape). intros Hn.
      unfold count in *.
      destruct (Nat.max_spec (length (m_data a)) (length (m_data b)))
        as [[Hlt ->] | [Hle ->]].
      * assert (m_data b <> []) as Hne
          by (intros E; rewrite E in Hlt; cbn [length] in Hlt; lia).
        specialize (Lb Hne). lia.
      * assert (m_data a <> []) as Hne
          by (intros E; rewrite E in Hn, Hle; cbn [length] in Hn, Hle; lia).
        specialize (La Hne). lia.
    + intros He. rewrite He in Hlen. cbn [length] in Hlen.
      apply well_formed_iff in Ha as (_ & _ & Hz). rewrite Hsr. apply Hz.
      destruct (m_data a); [reflexivity | cbn [length] in Hlen; lia].
  - rewrite (value_of_sign r _ _ Hsr Hmag). unfold value. rewrite <- Hs.
    destruct (m_sign a); lia.
Qed.

(** X10.  Addition of well-formed operands of one sign gives a well-formed
    object: the invariants of the class are kept. *)
Theorem add_keeps_well_formed (a b : BigInteger) (fuel : nat) :
  well_formed a -> well_formed b -> m_sign a = m_sign b ->
  exists r,
    op_add (S fuel) a b = Ok r
    /\ well_formed r
    /\ value r = value a + value b.
Proof. exact (add_well_formed_spec a b fuel). Qed.

Lemma add_keeps_well_formed_witness :
  exists r,
    op_add 1 (BigInteger_int 995) (BigInteger_int 7) = Ok r
    /\ well_formed r
    /\ value r = value (BigInteger_int 995) + value (BigInteger_int 7).
Proof.
  apply (add_keeps_well_formed (BigInteger_int 995) (BigInteger_int 7) 0);
    reflexivity.
Defined.

(** ** Multiplication by a small [int] *)

Lemma scale_digits_carried this num :
  Forall digit_ok (m_data this) -> 2 <= num <= 10 ->
  exists r,
    scale_digits this num = Ok r
    /\ m_sign r = m_sign this
    /\ carried (length (m_data this)) (num * magnitude this) (m_data r).
Proof.
  intros Hok Hnum. destruct this as [s d]. cbn [m_data m_sign] in *.
  destruct (scale_loop_spec num s ltac:(lia) d [] 0 Hok ltac:(lia))
    as (d' & carry & Hrun & Hlen & Hok' & Hc & Hval).
  cbn [app length] in Hrun. change (Z.of_nat 0) with 0 in Hrun.
  rewrite scale_digits_eq. unfold count at 1. cbn [m_data].
  rewrite Nat2Z.id, Hrun. cbn [bind].
  eexists. split; [reflexivity|]. split.
  - unfold is_negative. cbn [m_sign].
    destruct s, (num >? 0), (negb (carry =? 0)); reflexivity.
  - exists d', carry. unfold magnitude. cbn [m_data].
    split; [|repeat split; try assumption; lia].
    assert (forall t, m_data (if is_negative (mkBigInteger s d) && (num >? 0)
                              then set_sign t NEGATIVE else t) = m_data t) as ->
      by (intros t; now destruct (_ && _)).
    destruct (carry =? 0); cbn [negb m_data]; [now rewrite app_nil_r|].
    unfold push_digit. cbn [m_data].
    rewrite to_char_small by (unfold chr_0; lia). reflexivity.
Qed.



(** ** Subtraction of operands of one sign *)

Lemma sub_loop_spec s s' :
  forall sa pre off sb borrow,
    Forall digit_ok sa -> Forall digit_ok sb -> 0 <= borrow <= 1 ->
    (length sb <= length sa)%nat ->
    (sb <> [] -> length off = length pre) ->
    (sb = [] -> (length off <= length pre)%nat) ->
    exists out borrow',
      for_up (length sa) (Z.of_nat (length pre))
        (sub_step (mkBigInteger s' (off ++ sb)))
        (mkBigInteger s (pre ++ sa), borrow)
      = Ok (mkBigInteger s (pre ++ out), borrow')
      /\ length out = length sa
      /\ Forall digit_ok out
      /\ 0 <= borrow' <= 1
      /\ magnitude_of out - BASE ^ Z.of_nat (length sa) * borrow'
         = magnitude_of sa - magnitude_of sb - borrow.
Proof.
  induction sa as [|c sa IH]; intros pre off sb borrow Ha Hb Hbr Hlen Hbo Hbo'.
  - assert (sb = []) as -> by (destruct sb; [reflexivity | cbn in Hlen; lia]).
    exists [], borrow. cbn [for_up length magnitude_of].
    repeat split; try lia; constructor.
  - cbn [for_up length]. unfold sub_step at 1.
    rewrite get_digit_middle, (get_digit_head s' pre off sb Hbo Hbo').
    apply Forall_cons in Ha as [Hc Ha]. unfold digit_ok in Hc.
    destruct (head_digit_range sb Hb) as [Hdb Hb'].
    set (diff := c - chr_0 - head_digit sb - borrow).
    assert (-10 <= diff <= 9) as Hdiff by (unfold diff; lia).
    set (d := if diff <? 0 then diff + 10 else diff).
    set (br := if diff <? 0 then 1 else 0).
    assert ((let '(diff0, borrow0) :=
               if diff <? 0 then (diff + 10, 1) else (diff, 0) in
             let* this :=
               change_digit (mkBigInteger s (pre ++ c :: sa))
                 (Z.of_nat (length pre)) diff0 in
             Ok (this, borrow0))
            = Ok (mkBigInteger s (pre ++ (d + chr_0) :: sa), br)) as ->.
    { unfold d, br. destruct (diff <? 0) eqn:E;
        [apply Z.ltb_lt in E | apply Z.ltb_ge in E];
        rewrite change_digit_middle; cbn [bind];
        rewrite to_char_small by (unfold chr_0; lia); reflexivity. }
    cbn [bind].
    assert (0 <= d <= 9 /\ 0 <= br <= 1 /\ d - 10 * br = diff) as (Hd & Hbr' & Hdb').
    { unfold d, br. destruct (diff <? 0) eqn:E;
        [apply Z.ltb_lt in E | apply Z.ltb_ge in E]; lia. }
    assert (off ++ sb = (off ++ firstn 1 sb) ++ tail sb) as ->
      by (destruct sb; cbn [firstn tail]; now rewrite <- ?app_assoc, ?app_nil_r).
    destruct (IH (pre ++ [d + chr_0]) (off ++ firstn 1 sb) (tail sb) br Ha Hb' Hbr')
      as (out & borrow' & Hrun & Hlen' & Hok & Hb2 & Hval).
    + destruct sb; cbn [length tail] in *; lia.
    + intros Hne. destruct sb as [|x sb]; [contradiction|].
      rewrite !length_app. cbn. rewrite take_0, (Hbo ltac:(discriminate)).
      reflexivity.
    + intros Hnil. rewrite !length_app. cbn [length].
      destruct sb as [|x sb].
      * specialize (Hbo' eq_refl). cbn. lia.
      * rewrite (Hbo ltac:(discriminate)). cbn. rewrite take_0. cbn. lia.
    + rewrite length_app, Nat2Z.inj_add in Hrun. cbn [length] in Hrun.
      change (Z.of_nat 1) with 1 in Hrun.
      replace (pre ++ (d + chr_0) :: sa) with ((pre ++ [d + chr_0]) ++ sa)
        by now rewrite <- app_assoc.
      rewrite Hrun.
      exists ((d + chr_0) :: out), borrow'. rewrite <- app_assoc. cbn [app].
      split; [reflexivity|]. split; [cbn [length]; lia|].
      split; [constructor; [unfold digit_ok, chr_0; lia | exact Hok]|].
      split; [exact Hb2|].
      cbn [magnitude_of]. rewrite Nat2Z.inj_succ, Z.pow_succ_r by lia.
      rewrite (head_digit_tail sb). rewrite <- Z.mul_assoc.
      unfold diff in Hdb'. unfold BASE in *. lia.
Qed.

(** The digit loop of [operator-=] and [normalize] on decimal digits,
    when [rhs] is no longer and no larger than [this]: the difference of
    the magnitudes, without a leading zero, under the sign flag of
    [this]. *)
Lemma sub_digits_spec a b :
  Forall digit_ok (m_data a) -> Forall digit_ok (m_data b) ->
  (length (m_data b) <= length (m_data a))%nat ->
  magnitude b <= magnitude a ->
  exists r,
    sub_digits a b = Ok r
    /\ m_sign r = m_sign a
    /\ Forall digit_ok (m_data r)
    /\ normalized r = true
    /\ magnitude r = magnitude a - magnitude b.
Proof.
  intros Ha Hb Hlen Hle. destruct a as [s da], b as [s' db].
  unfold magnitude in *. cbn [m_data m_sign] in *.
  destruct (sub_loop_spec s s' da [] [] db 0 Ha Hb ltac:(lia) Hlen
              ltac:(intros; reflexivity) ltac:(intros; cbn [length]; lia))
    as (out & borrow & Hrun & Hlen' & Hok & Hbr & Hval).
  cbn [app length] in Hrun. change (Z.of_nat 0) with 0 in Hrun.
  rewrite sub_digits_eq. unfold count at 1. cbn [m_data].
  rewrite Nat2Z.id, Hrun. cbn [bind].
  pose proof (magnitude_of_bounds out Hok) as Bo. rewrite Hlen' in Bo.
  assert (0 < BASE ^ Z.of_nat (length da))
    by (apply Z.pow_pos_nonneg; unfold BASE; lia).
  assert (borrow = 0) as -> by nia.
  destruct (normalize_spec (mkBigInteger s out))
    as (Hs & Hn & _ & Hm & _).
  eexists. split; [reflexivity|]. split; [exact Hs|].
  split; [now apply normalize_digits_ok|]. split; [exact Hn|].
  unfold magnitude in Hm. cbn [m_data] in Hm. unfold magnitude. lia.
Qed.

Lemma sub_swap_condition a b :
  well_formed a -> well_formed b -> m_sign a = m_sign b ->
  (is_positive a && op_lt a b) || (is_negative a && op_gt a b)
  = (magnitude a <? magnitude b).
Proof.
  intros Ha Hb Hs. unfold op_gt.
  rewrite (less_than_numeric a b Ha Hb), (less_than_numeric b a Hb Ha).
  unfold value, is_positive, is_negative. rewrite <- Hs.
  destruct (m_sign a); cbn [Sign_eqb andb orb].
  - apply orb_false_r.
  - destruct (magnitude a <? magnitude b) eqn:E;
      [apply Z.ltb_lt in E; apply Z.ltb_lt | apply Z.ltb_ge in E; apply Z.ltb_ge];
      lia.
Qed.

Lemma not_shorter_when_not_smaller a b :
  well_formed a -> well_formed b -> magnitude b <= magnitude a ->
  (length (m_data b) <= length (m_data a))%nat.
Proof.
  intros Ha Hb Hle.
  destruct (Nat.le_gt_cases (length (m_data b)) (length (m_data a)))
    as [H | H]; [exact H|].
  pose proof (shorter_is_smaller a b Ha Hb ltac:(unfold count; lia)). lia.
Qed.

Lemma sub_same_sign_spec (a b : BigInteger) (fuel : nat) :
  well_formed a -> well_formed b -> m_sign a = m_sign b ->
  exists r,
    op_sub (S (S fuel)) a b = Ok r
    /\ value r = value a - value b
    /\ digits_ok r
    /\ normalized r = true
    /\ (value a <> value b -> well_formed r)
    /\ (magnitude b <= magnitude a -> m_sign r = m_sign a).
Proof.
  intros Ha Hb Hs.
  destruct (well_formed_magnitude a Ha) as (Oa & Ba & _ & _).
  destruct (well_formed_magnitude b Hb) as (Ob & Bb & _ & _).
  destruct (sign_flags_equal a b Hs) as [Hp Hn].
  assert (forall r, Forall digit_ok (m_data r) -> normalized r = true ->
            value r = value a - value b ->
            (magnitude b <= magnitude a -> m_sign r = m_sign a) ->
            value r = value a - value b /\ digits_ok r /\ normalized r = true
            /\ (value a <> value b -> well_formed r)
            /\ (magnitude b <= magnitude a -> m_sign r = m_sign a)) as Hfin.
  { intros r Hok Hnorm Hv Hsg. split; [exact Hv|].
    split; [now apply digits_ok_Forall|]. split; [exact Hnorm|].
    split; [|exact Hsg].
    intros Hne. apply well_formed_iff.
    split; [now apply digits_ok_Forall|]. split; [exact Hnorm|].
    intros He. exfalso. apply Hne.
    assert (magnitude r = 0) as Hz by (unfold magnitude; now rewrite He).
    unfold value at 1 in Hv. rewrite Hz in Hv. destruct (m_sign r); lia. }
  unfold op_sub. rewrite op_sub_assign_S.
  replace (eqb (is_negative a) (is_negative b)) with true
    by (rewrite Hn; symmetry; apply eqb_reflx).
  cbn [negb]. rewrite (sub_swap_condition a b Ha Hb Hs).
  destruct (magnitude a <? magnitude b) eqn:E.
  - apply Z.ltb_lt in E.
    rewrite op_sub_assign_S.
    replace (eqb (is_negative b) (is_negative a)) with true
      by (rewrite Hn; symmetry; apply eqb_reflx).
    cbn [negb]. rewrite (sub_swap_condition b a Hb Ha (eq_sym Hs)).
    replace (magnitude b <? magnitude a) with false
      by (symmetry; apply Z.ltb_ge; lia).
    destruct (sub_digits_spec b a Ob Oa
                (not_shorter_when_not_smaller b a Hb Ha ltac:(lia)) ltac:(lia))
      as (r & -> & Hsr & Hok & Hnorm & Hmag).
    cbn [bind]. eexists. split; [reflexivity|].
    unfold is_positive. rewrite Hsr, <- Hs. apply Hfin.
    + now destruct (Sign_eqb (m_sign a) POSITIVE).
    + unfold normalized in *. now destruct (Sign_eqb (m_sign a) POSITIVE).
    + unfold value. rewrite <- Hs. unfold magnitude in *.
      destruct (m_sign a); cbn [Sign_eqb set_sign m_sign m_data]; lia.
    + intros Hge. lia.
  - apply Z.ltb_ge in E.
    destruct (sub_digits_spec a b Oa Ob
                (not_shorter_when_not_smaller a b Ha Hb E) E)
      as (r & -> & Hsr & Hok & Hnorm & Hmag).
    eexists. split; [reflexivity|].
    apply Hfin; [exact Hok | exact Hnorm | | intros _; exact Hsr].
    rewrite (value_of_sign r _ _ Hsr Hmag). unfold value. rewrite <- Hs.
    destruct (m_sign a); lia.
Qed.

(** X12.  [a - b] for well-formed operands of one sign: the call returns within
    two levels with the difference of the two numbers, decimal digits and
    no leading zero; the result is well formed whenever the numbers
    differ, and keeps the sign flag of [a] when the magnitude of [b] is
    not the larger one. *)
Theorem sub_same_sign (a b : BigInteger) (fuel : nat) :
  well_formed a -> well_formed b -> m_sign a = m_sign b ->
  exists r,
    op_sub (S (S fuel)) a b = Ok r
    /\ value r = value a - value b
    /\ digits_ok r
    /\ normalized r = true
    /\ (value a <> value b -> well_formed r)
    /\ (magnitude b <= magnitude a -> m_sign r = m_sign a).
Proof. exact (sub_same_sign_spec a b fuel). Qed.

Lemma sub_same_sign_witness :
  exists r,
    op_sub 2 (BigInteger_int 100) (BigInteger_int 7) = Ok r
    /\ value r = value (BigInteger_int 100) - value (BigInteger_int 7)
    /\ digits_ok r
    /\ normalized r = true
    /\ (value (BigInteger_int 100) <> value (BigInteger_int 7) -> well_formed r)
    /\ (magnitude (BigInteger_int 7) <= magnitude (BigInteger_int 100) ->
        m_sign r = m_sign (BigInteger_int 100)).
Proof.
  apply (sub_same_sign (BigInteger_int 100) (BigInteger_int 7) 0); reflexivity.
Defined.

(** ** Negation and operands of different signs *)

Lemma carried_self l :
  Forall digit_ok l -> carried (length l) (magnitude_of l) l.
Proof.
  intros Hok. exists l, 0. cbn [Z.eqb]. rewrite app_nil_r.
  repeat split; try assumption; lia.
Qed.

(** Adding to the zero of [BigInteger(0)] copies the digits. *)
Lemma add_digits_zero b :
  Forall digit_ok (m_data b) ->
  add_digits (BigInteger_int 0) b = Ok (mkBigInteger POSITIVE (m_data b)).
Proof.
  intros Hb.
  destruct (add_digits_spec (BigInteger_int 0) b ltac:(constructor) Hb)
    as (r & -> & Hs & Hc).
  cbn [m_data BigInteger_int length Nat.max] in Hc.
  change (magnitude (BigInteger_int 0)) with 0 in Hc.
  change (Nat.max (length (m_data (BigInteger_int 0))) (length (m_data b)))
    with (length (m_data b)) in Hc.
  pose proof (carried_unique _ _ _ _ Hc (carried_self _ Hb)) as Hd.
  destruct r as [s d]. cbn [m_sign m_data] in *. now subst.
Qed.

(** [b * -1] for a POSITIVE [b] that stores decimal digits returns [b]
    with the NEGATIVE flag, at every call depth from 3 on. *)
Lemma negate_positive_spec b fuel :
  digits_ok b -> m_sign b = POSITIVE ->
  op_mul_int_assign (S (S (S fuel))) b (-1) = Ok (set_sign b NEGATIVE).
Proof.
  intros Hb Hs. apply digits_ok_Forall in Hb.
  rewrite op_mul_int_assign_S. cbn [Z.eqb Z.ltb Z.compare BASE orb].
  rewrite op_mul_assign_S.
  change (Z.to_nat (count (BigInteger_int (-1)))) with 1%nat.
  cbn [for_up]. unfold mul_step at 1.
  change (get_digit (BigInteger_int (-1)) 0) with 1.
  rewrite op_mul_int_assign_S. cbn [Z.eqb Pos.eqb bind].
  rewrite op_add_assign_S.
  replace (is_positive b) with true by (unfold is_positive; now rewrite Hs).
  cbn [zero_is_positive eqb negb].
  change (is_positive (BigInteger_int 0)) with true. cbn [eqb negb].
  rewrite (add_digits_zero b Hb). cbn [bind].
  rewrite op_mul_int_assign_S.
  cbn [Z.eqb Pos.eqb BASE Z.ltb Z.compare Pos.compare Pos.compare_cont orb].
  destruct (scale_digits_returns b 10) as [l ->]. cbn [bind].
  rewrite Hs. reflexivity.
Qed.

Lemma negated_well_formed b :
  well_formed b -> 0 < count b ->
  well_formed (set_sign b NEGATIVE)
  /\ value (set_sign b NEGATIVE) = - magnitude b.
Proof.
  intros Hb Hc. apply well_formed_iff in Hb as (Hok & Hn & _).
  split; [|reflexivity]. apply well_formed_iff.
  split; [exact Hok|]. split; [exact Hn|].
  cbn [set_sign m_data]. intros He. unfold count in Hc. rewrite He in Hc.
  cbn in Hc. lia.
Qed.

Lemma positive_value b : m_sign b = POSITIVE -> value b = magnitude b.
Proof. unfold value. now intros ->. Qed.

(** [a + b] with [a] negative and [b] positive and not zero: the sum is
    computed as [a - (-b)]. *)
Lemma add_negative_positive_spec a b fuel :
  well_formed a -> well_formed b ->
  m_sign a = NEGATIVE -> m_sign b = POSITIVE -> 0 < count b ->
  exists r,
    op_add_assign (S (S (S (S fuel)))) false a b = Ok r
    /\ value r = value a + value b
    /\ digits_ok r
    /\ normalized r = true
    /\ (value a + value b <> 0 -> well_formed r).
Proof.
  intros Ha Hb Sa Sb Hc.
  destruct (negated_well_formed b Hb Hc) as [Hnb Hvb].
  pose proof (proj1 (well_formed_iff b) Hb) as (Hokb & _).
  rewrite op_add_assign_S.
  replace (is_positive a) with false by (unfold is_positive; now rewrite Sa).
  replace (is_positive b) with true by (unfold is_positive; now rewrite Sb).
  cbn [eqb negb].
  rewrite (negate_positive_spec b fuel Hokb Sb). cbn [bind].
  destruct (sub_same_sign_spec a (set_sign b NEGATIVE) (S fuel) Ha Hnb
              ltac:(now rewrite Sa))
    as (r & Hr & Hv & Hok & Hn & Hwf & _).
  unfold op_sub in Hr. exists r. split; [exact Hr|].
  rewrite Hvb in Hv, Hwf. rewrite (positive_value b Sb).
  split; [lia|]. split; [exact Hok|]. split; [exact Hn|].
  intros Hne. apply Hwf. lia.
Qed.

(** [a - b] with [a] negative and [b] positive and not zero: the
    difference is computed as [a + (-b)]. *)
Lemma sub_negative_positive_spec a b fuel :
  well_formed a -> well_formed b ->
  m_sign a = NEGATIVE -> m_sign b = POSITIVE -> 0 < count b ->
  exists r,
    op_sub_assign (S (S (S (S fuel)))) false a b = Ok r
    /\ value r = value a - value b
    /\ well_formed r.
Proof.
  intros Ha Hb Sa Sb Hc.
  destruct (negated_well_formed b Hb Hc) as [Hnb Hvb].
  pose proof (proj1 (well_formed_iff b) Hb) as (Hokb & _).
  rewrite op_sub_assign_S.
  replace (is_negative a) with true by (unfold is_negative; now rewrite Sa).
  replace (is_negative b) with false by (unfold is_negative; now rewrite Sb).
  cbn [eqb negb].
  rewrite (negate_positive_spec b fuel Hokb Sb). cbn [bind].
  destruct (add_well_formed_spec a (set_sign b NEGATIVE) (S (S fuel)) Ha Hnb
              ltac:(now rewrite Sa))
    as (r & Hr & Hwf & Hv).
  unfold op_add in Hr. exists r. split; [exact Hr|].
  rewrite Hvb in Hv. rewrite (positive_value b Sb). split; [lia | exact Hwf].
Qed.

(** X13.  A negative left operand and a positive, non-zero right operand are
    the mixed-sign case in which [+] and [-] return: both give the right
    number. *)
Theorem negative_with_positive_returns (a b : BigInteger) (fuel : nat) :
  well_formed a -> well_formed b ->
  m_sign a = NEGATIVE -> m_sign b = POSITIVE -> 0 < count b ->
  (exists r, op_add (4 + fuel) a b = Ok r
             /\ value r = value a + value b
             /\ digits_ok r /\ normalized r = true)
  /\ (exists r, op_sub (4 + fuel) a b = Ok r
                /\ value r = value a - value b
                /\ well_formed r).
Proof.
  intros Ha Hb Sa Sb Hc. split.
  - destruct (add_negative_positive_spec a b fuel Ha Hb Sa Sb Hc)
      as (r & Hr & Hv & Hok & Hn & _).
    exists r. now repeat split.
  - exact (sub_negative_positive_spec a b fuel Ha Hb Sa Sb Hc).
Qed.

Lemma negative_with_positive_returns_witness :
  (exists r, op_add 4 (BigInteger_int (-3)) (BigInteger_int 40) = Ok r
             /\ value r = value (BigInteger_int (-3)) + value (BigInteger_int 40)
             /\ digits_ok r /\ normalized r = true)
  /\ (exists r, op_sub 4 (BigInteger_int (-3)) (BigInteger_int 40) = Ok r
                /\ value r = value (BigInteger_int (-3)) - value (BigInteger_int 40)
                /\ well_formed r).
Proof.
  apply (negative_with_positive_returns (BigInteger_int (-3)) (BigInteger_int 40) 0);
    reflexivity.
Defined.

(** X14.  A positive left operand and a negative right operand: [+] and [-]
    never return, whatever the stored digits and the call depth. *)
Theorem positive_with_negative_never_returns (a b : BigInteger) (fuel : nat) :
  m_sign a = POSITIVE -> m_sign b = NEGATIVE ->
  op_add fuel a b = OutOfFuel /\ op_sub fuel a b = OutOfFuel.
Proof.
  intros Sa Sb.
  assert (is_positive a = true) as Hp by (unfold is_positive; now rewrite Sa).
  split.
  - now apply add_positive_negative_diverges.
  - now apply sub_positive_negative_diverges.
Qed.

Lemma positive_with_negative_never_returns_witness :
  op_add 1000 (BigInteger_string "12") (BigInteger_string "-7") = OutOfFuel
  /\ op_sub 1000 (BigInteger_string "12") (BigInteger_string "-7") = OutOfFuel.
Proof.
  apply (positive_with_negative_never_returns
           (BigInteger_string "12") (BigInteger_string "-7") 1000);
    reflexivity.
Defined.

(** ** Multiplication *)

(** The loop of [operator*=(const BigInteger &)] with a negative [lhs]
    stops returning at the first digit of [rhs] that is not 0. *)
Lemma mul_loop_negative_diverges f sb :
  forall suf pre lhs sum,
    m_sign lhs = NEGATIVE -> is_positive sum = true ->
    Forall digit_ok (m_data sum) -> Forall digit_ok suf ->
    magnitude_of suf <> 0 ->
    for_up (length suf) (Z.of_nat (length pre))
      (mul_step (op_mul_int_assign f) (op_add_assign f false)
         (mkBigInteger sb (pre ++ suf)))
      (lhs, sum)
    = OutOfFuel.
Proof.
  induction suf as [|c suf IH]; intros pre lhs sum Hl Hs Hsum Hok Hmag;
    [now contradiction Hmag|].
  apply Forall_cons in Hok as [Hc Hok]. unfold digit_ok in Hc.
  cbn [for_up length]. unfold mul_step at 1. rewrite get_digit_middle.
  destruct f as [|f]; [reflexivity|].
  rewrite op_mul_int_assign_S.
  destruct (c - chr_0 =? 0) eqn:E0.
  - apply Z.eqb_eq in E0. cbn [bind]. rewrite op_add_assign_S, Hs.
    change (is_positive (BigInteger_int 0)) with true. cbn [eqb negb].
    destruct (add_digits_spec sum (BigInteger_int 0) Hsum ltac:(constructor))
      as (sum' & -> & Hs' & Hc').
    destruct (carried_props _ _ _ Hc') as (Hok' & _).
    cbn [bind]. rewrite op_mul_int_assign_S.
    cbn [Z.eqb Pos.eqb BASE Z.ltb Z.compare Pos.compare Pos.compare_cont orb].
    destruct (scale_digits_returns lhs 10) as [lhs' Hl'].
    rewrite Hl'. cbn [bind].
    replace (pre ++ c :: suf) with ((pre ++ [c]) ++ suf)
      by now rewrite <- app_assoc.
    replace (Z.of_nat (length pre) + 1) with (Z.of_nat (length (pre ++ [c])))
      by (rewrite length_app; cbn [length]; lia).
    apply IH.
    + rewrite (scale_digits_sign _ _ _ Hl') by lia. exact Hl.
    + unfold is_positive in *. now rewrite Hs'.
    + exact Hok'.
    + exact Hok.
    + cbn [magnitude_of] in Hmag. unfold BASE in *. lia.
  - apply Z.eqb_neq in E0.
    assert (exists t, (if c - chr_0 =? 1 then Ok lhs
                       else if (BASE <? c - chr_0) || (c - chr_0 <? 0)
                            then op_mul_assign f lhs (BigInteger_int (c - chr_0))
                            else scale_digits lhs (c - chr_0)) = Ok t
                      /\ m_sign t = NEGATIVE) as (t & -> & Ht).
    { destruct (c - chr_0 =? 1); [now exists lhs|].
      replace ((BASE <? c - chr_0) || (c - chr_0 <? 0)) with false.
      2:{ symmetry. apply orb_false_iff.
          split; apply Z.ltb_ge; unfold BASE; lia. }
      destruct (scale_digits_returns lhs (c - chr_0)) as [t Ht].
      exists t. split; [exact Ht|].
      rewrite (scale_digits_sign _ _ _ Ht) by lia. exact Hl. }
    cbn [bind]. now rewrite add_positive_negative_diverges.
Qed.

(** X15.  A negative left operand: [a * b] never returns as soon as [b] stores
    decimal digits that are not all 0. *)
Theorem negative_times_never_returns (a b : BigInteger) (fuel : nat) :
  m_sign a = NEGATIVE -> digits_ok b -> value b <> 0 ->
  op_mul fuel a b = OutOfFuel.
Proof.
  intros Sa Hb Hv. apply digits_ok_Forall in Hb.
  assert (magnitude_of (m_data b) <> 0) as Hm
    by (unfold value, magnitude in Hv; destruct (m_sign b); lia).
  unfold op_mul. destruct fuel as [|f]; [reflexivity|].
  rewrite op_mul_assign_S. unfold count. rewrite Nat2Z.id.
  destruct b as [sb db]. cbn [m_data m_sign] in *.
  pose proof (mul_loop_negative_diverges f sb db [] a (BigInteger_int 0) Sa
                eq_refl ltac:(constructor) Hb Hm) as Hrun.
  cbn [app length] in Hrun. change (Z.of_nat 0) with 0 in Hrun.
  now rewrite Hrun.
Qed.

Lemma negative_times_never_returns_witness :
  op_mul 1000 (BigInteger_int (-3)) (BigInteger_int 40) = OutOfFuel.
Proof.
  apply (negative_times_never_returns (BigInteger_int (-3)) (BigInteger_int 40) 1000).
  - reflexivity.
  - reflexivity.
  - vm_compute. discriminate.
Defined.

(** Multiplication by a small [int] keeps the invariants of the class. *)
Lemma scale_well_formed_spec this num :
  well_formed this -> 2 <= num <= 10 ->
  exists r,
    scale_digits this num = Ok r
    /\ well_formed r
    /\ m_sign r = m_sign this
    /\ magnitude r = num * magnitude this.
Proof.
  intros Hwf Hnum.
  destruct (well_formed_magnitude this Hwf) as (Hok & _ & Hlow & _).
  destruct (scale_digits_carried this num Hok Hnum) as (r & Hr & Hs & Hc).
  destruct (carried_props _ _ _ Hc) as (Hok' & Hmag & Hlen & _).
  exists r. split; [exact Hr|]. split; [|split; [exact Hs | exact Hmag]].
  apply well_formed_iff. split; [now apply digits_ok_Forall|]. split.
  - destruct r as [sr dr]. cbn [m_data] in *.
    apply (carried_normalized _ _ _ _ Hc). intros Hn.
    assert (m_data this <> []) as Hne
      by (intros E; rewrite E in Hn; now cbn in Hn).
    specialize (Hlow Hne). unfold count in Hlow.
    assert (0 < BASE ^ (Z.of_nat (length (m_data this)) - 1)).
    { apply Z.pow_pos_nonneg; [unfold BASE; lia|].
      destruct (m_data this); [contradiction | cbn [length]; lia]. }
    nia.
  - intros He. rewrite He in Hlen. cbn [length] in Hlen.
    apply well_formed_iff in Hwf as (_ & _ & Hz). rewrite Hs. apply Hz.
    destruct (m_data this); [reflexivity | cbn [length] in Hlen; lia].
Qed.

Section MulLoop.
(** The loop of [operator*=(const BigInteger &)] under a property [P] of
    objects that the zero of [BigInteger(0)] has and that the calls of the
    loop keep. *)
Variable P : BigInteger -> Prop.
Variable f : nat.
Hypothesis P_zero : P (BigInteger_int 0).
Hypothesis P_mul_int :
  forall x d, P x -> 0 <= d <= 10 ->
    exists t, op_mul_int_assign (S f) x d = Ok t
              /\ P t /\ magnitude t = d * magnitude x.
Hypothesis P_add :
  forall x y, P x -> P y ->
    exists r, op_add_assign (S f) false x y = Ok r
              /\ P r /\ magnitude r = magnitude x + magnitude y.

Lemma mul_loop_spec sb :
  forall suf pre lhs sum,
    P lhs -> P sum -> Forall digit_ok suf ->
    exists lhs' sum',
      for_up (length suf) (Z.of_nat (length pre))
        (mul_step (op_mul_int_assign (S f)) (op_add_assign (S f) false)
           (mkBigInteger sb (pre ++ suf)))
        (lhs, sum)
      = Ok (lhs', sum')
      /\ P sum'
      /\ magnitude sum' = magnitude sum + magnitude lhs * magnitude_of suf.
Proof.
  induction suf as [|c suf IH]; intros pre lhs sum Hl Hs Hok.
  - exists lhs, sum. cbn [for_up length magnitude_of].
    repeat split; [exact Hs | lia].
  - apply Forall_cons in Hok as [Hc Hok]. unfold digit_ok in Hc.
    cbn [for_up length]. unfold mul_step at 1. rewrite get_digit_middle.
    destruct (P_mul_int lhs (c - chr_0) Hl ltac:(unfold chr_0 in *; lia))
      as (t & -> & Ht & Mt).
    cbn [bind]. destruct (P_add sum t Hs Ht) as (sum1 & -> & Hs1 & Ms1).
    cbn [bind]. destruct (P_mul_int lhs 10 Hl ltac:(lia)) as (lhs1 & -> & Hl1 & Ml1).
    cbn [bind].
    replace (pre ++ c :: suf) with ((pre ++ [c]) ++ suf)
      by now rewrite <- app_assoc.
    replace (Z.of_nat (length pre) + 1) with (Z.of_nat (length (pre ++ [c])))
      by (rewrite length_app; cbn [length]; lia).
    destruct (IH (pre ++ [c]) lhs1 sum1 Hl1 Hs1 Hok) as (lhs' & sum' & -> & Hs' & Ms').
    exists lhs', sum'. split; [reflexivity|]. split; [exact Hs'|].
    rewrite Ms', Ms1, Mt, Ml1. cbn [magnitude_of]. unfold BASE. lia.
Qed.

Lemma mul_assign_spec a b :
  P a -> Forall digit_ok (m_data b) ->
  exists sum,
    op_mul_assign (S (S f)) a b
    = Ok (if negb (Sign_eqb (m_sign a) (m_sign b))
          then set_sign sum NEGATIVE else sum)
    /\ P sum
    /\ magnitude sum = magnitude a * magnitude b.
Proof.
  intros Ha Hb. destruct b as [sb db]. cbn [m_data m_sign] in *.
  destruct (mul_loop_spec sb db [] a (BigInteger_int 0) Ha P_zero Hb)
    as (lhs' & sum' & Hrun & Hs & Hm).
  cbn [app length] in Hrun. change (Z.of_nat 0) with 0 in Hrun.
  rewrite op_mul_assign_S. unfold count. cbn [m_data m_sign].
  rewrite Nat2Z.id, Hrun. cbn [bind].
  exists sum'. split; [reflexivity|]. split; [exact Hs|].
  rewrite Hm. change (magnitude (BigInteger_int 0)) with 0.
  unfold magnitude. cbn [m_data]. lia.
Qed.
End MulLoop.

(** The calls of the loop on positive objects that store decimal digits. *)
Lemma mul_int_digit_spec f x d :
  m_sign x = POSITIVE /\ Forall digit_ok (m_data x) -> 0 <= d <= 10 ->
  exists t,
    op_mul_int_assign (S f) x d = Ok t
    /\ (m_sign t = POSITIVE /\ Forall digit_ok (m_data t))
    /\ magnitude t = d * magnitude x.
Proof.
  intros [Hs Hok] Hd. rewrite op_mul_int_assign_S.
  destruct (d =? 0) eqn:E0.
  { apply Z.eqb_eq in E0. subst d. eexists. split; [reflexivity|].
    split; [split; [reflexivity | constructor] | reflexivity]. }
  destruct (d =? 1) eqn:E1.
  { apply Z.eqb_eq in E1. subst d. exists x.
    split; [reflexivity|]. split; [now split | lia]. }
  apply Z.eqb_neq in E0, E1.
  replace ((BASE <? d) || (d <? 0)) with false.
  2:{ symmetry. apply orb_false_iff. split; apply Z.ltb_ge; unfold BASE; lia. }
  destruct (scale_digits_carried x d Hok ltac:(lia)) as (t & -> & Hst & Hc).
  destruct (carried_props _ _ _ Hc) as (Hok' & Hmag & _).
  exists t. split; [reflexivity|]. split; [split; [congruence | exact Hok'] | exact Hmag].
Qed.

Lemma add_positive_digits_spec f x y :
  m_sign x = POSITIVE /\ Forall digit_ok (m_data x) ->
  m_sign y = POSITIVE /\ Forall digit_ok (m_data y) ->
  exists r,
    op_add_assign (S f) false x y = Ok r
    /\ (m_sign r = POSITIVE /\ Forall digit_ok (m_data r))
    /\ magnitude r = magnitude x + magnitude y.
Proof.
  intros [Sx Hx] [Sy Hy]. rewrite op_add_assign_S.
  unfold is_positive. rewrite Sx, Sy. cbn [Sign_eqb eqb negb].
  destruct (add_digits_spec x y Hx Hy) as (r & -> & Hs & Hc).
  destruct (carried_props _ _ _ Hc) as (Hok & Hmag & _).
  exists r. split; [reflexivity|]. split; [split; [congruence | exact Hok] | exact Hmag].
Qed.

Lemma mul_positive_left_spec (a b : BigInteger) (fuel : nat) :
  m_sign a = POSITIVE -> digits_ok a -> digits_ok b ->
  exists r,
    op_mul (S (S fuel)) a b = Ok r
    /\ value r = value a * value b
    /\ m_sign r = m_sign b
    /\ digits_ok r.
Proof.
  intros Sa Ha Hb. apply digits_ok_Forall in Ha, Hb.
  destruct (mul_assign_spec
              (fun x => m_sign x = POSITIVE /\ Forall digit_ok (m_data x)) fuel
              ltac:(split; [reflexivity | constructor])
              (mul_int_digit_spec fuel) (add_positive_digits_spec fuel)
              a b (conj Sa Ha) Hb)
    as (sum & Hr & [Ss Hok] & Hm).
  unfold op_mul. rewrite Hr, Sa. eexists. split; [reflexivity|].
  unfold value. rewrite Sa.
  destruct (m_sign b); cbn [Sign_eqb negb]; unfold magnitude in *;
    cbn [set_sign m_sign m_data]; rewrite ?Ss;
    (split; [lia|]); (split; [congruence|]); now apply digits_ok_Forall.
Qed.

(** X16.  [a * b] for a POSITIVE [a], both operands storing decimal digits: the
    call returns within two levels with the product of the two numbers,
    decimal digits, and the sign flag of [b]. *)
Theorem mul_positive_left (a b : BigInteger) (fuel : nat) :
  m_sign a = POSITIVE -> digits_ok a -> digits_ok b ->
  exists r,
    op_mul (S (S fuel)) a b = Ok r
    /\ value r = value a * value b
    /\ m_sign r = m_sign b
    /\ digits_ok r.
Proof. exact (mul_positive_left_spec a b fuel). Qed.

Lemma mul_positive_left_witness :
  exists r,
    op_mul 2 (BigInteger_int 12) (BigInteger_int (-34)) = Ok r
    /\ value r = value (BigInteger_int 12) * value (BigInteger_int (-34))
    /\ m_sign r = m_sign (BigInteger_int (-34))
    /\ digits_ok r.
Proof.
  apply (mul_positive_left (BigInteger_int 12) (BigInteger_int (-34)) 0);
    reflexivity.
Defined.

(** ** The invariants of the class under multiplication, and laws *)

Lemma mul_int_well_formed_spec f x d :
  m_sign x = POSITIVE /\ well_formed x -> 0 <= d <= 10 ->
  exists t,
    op_mul_int_assign (S f) x d = Ok t
    /\ (m_sign t = POSITIVE /\ well_formed t)
    /\ magnitude t = d * magnitude x.
Proof.
  intros [Hs Hwf] Hd. rewrite op_mul_int_assign_S.
  destruct (d =? 0) eqn:E0.
  { apply Z.eqb_eq in E0. subst d. eexists. split; [reflexivity|].
    split; [split; reflexivity | reflexivity]. }
  destruct (d =? 1) eqn:E1.
  { apply Z.eqb_eq in E1. subst d. exists x.
    split; [reflexivity|]. split; [now split | lia]. }
  apply Z.eqb_neq in E0, E1.
  replace ((BASE <? d) || (d <? 0)) with false.
  2:{ symmetry. apply orb_false_iff. split; apply Z.ltb_ge; unfold BASE; lia. }
  destruct (scale_well_formed_spec x d Hwf ltac:(lia)) as (t & -> & Hwt & Hst & Hm).
  exists t. split; [reflexivity|]. split; [split; [congruence | exact Hwt] | exact Hm].
Qed.

Lemma add_positive_well_formed_spec f x y :
  m_sign x = POSITIVE /\ well_formed x ->
  m_sign y = POSITIVE /\ well_formed y ->
  exists r,
    op_add_assign (S f) false x y = Ok r
    /\ (m_sign r = POSITIVE /\ well_formed r)
    /\ magnitude r = magnitude x + magnitude y.
Proof.
  intros [Sx Hx] [Sy Hy].
  destruct (add_well_formed_spec x y f Hx Hy ltac:(congruence))
    as (r & Hr & Hwf & Hv).
  unfold op_add in Hr. exists r. split; [exact Hr|].
  pose proof (proj1 (well_formed_iff x) Hx) as (Ox & _).
  pose proof (proj1 (well_formed_iff y) Hy) as (Oy & _).
  apply digits_ok_Forall in Ox, Oy.
  rewrite op_add_assign_S in Hr. unfold is_positive in Hr.
  rewrite Sx, Sy in Hr. cbn [Sign_eqb eqb negb] in Hr.
  destruct (add_digits_spec x y Ox Oy) as (r' & Hr' & Hs & _).
  assert (r' = r) as -> by congruence.
  assert (m_sign r = POSITIVE) as Sr by congruence.
  split; [now split|].
  rewrite (positive_value x Sx), (positive_value y Sy),
    (positive_value r Sr) in Hv. exact Hv.
Qed.

Lemma mul_positive_well_formed_spec a b fuel :
  well_formed a -> well_formed b ->
  m_sign a = POSITIVE -> m_sign b = POSITIVE ->
  exists r,
    op_mul_assign (S (S fuel)) a b = Ok r
    /\ well_formed r
    /\ m_sign r = POSITIVE
    /\ value r = value a * value b.
Proof.
  intros Ha Hb Sa Sb.
  pose proof (proj1 (well_formed_iff b) Hb) as (Ob & _).
  apply digits_ok_Forall in Ob.
  destruct (mul_assign_spec
              (fun x => m_sign x = POSITIVE /\ well_formed x) fuel
              ltac:(split; reflexivity)
              (mul_int_well_formed_spec fuel)
              (add_positive_well_formed_spec fuel)
              a b (conj Sa Ha) Ob)
    as (sum & Hr & [Ss Hwf] & Hm).
  rewrite Sa, Sb in Hr. cbn [Sign_eqb negb] in Hr.
  exists sum. split; [exact Hr|]. split; [exact Hwf|]. split; [exact Ss|].
  now rewrite (positive_value a Sa), (positive_value b Sb), (positive_value sum Ss).
Qed.

(** X17.  The product of well-formed POSITIVE operands is well formed: the
    invariants of the class are kept, and the value is the product. *)
Theorem mul_keeps_well_formed (a b : BigInteger) (fuel : nat) :
  well_formed a -> well_formed b ->
  m_sign a = POSITIVE -> m_sign b = POSITIVE ->
  exists r,
    op_mul (S (S fuel)) a b = Ok r
    /\ well_formed r
    /\ value r = value a * value b.
Proof.
  intros Ha Hb Sa Sb.
  destruct (mul_positive_well_formed_spec a b fuel Ha Hb Sa Sb)
    as (r & Hr & Hwf & _ & Hv).
  exists r. now repeat split.
Qed.

Lemma mul_keeps_well_formed_witness :
  exists r,
    op_mul 2 (BigInteger_int 120) (BigInteger_int 305) = Ok r
    /\ well_formed r
    /\ value r = value (BigInteger_int 120) * value (BigInteger_int 305).
Proof.
  apply (mul_keeps_well_formed (BigInteger_int 120) (BigInteger_int 305) 0);
    reflexivity.
Defined.








(** X21.  For well-formed POSITIVE operands with [b] not larger than [a],
    subtracting [b] and adding it back returns [a]. *)
Theorem sub_then_add_round_trip (a b : BigInteger) (fuel : nat) :
  well_formed a -> well_formed b ->
  m_sign a = POSITIVE -> m_sign b = POSITIVE -> value b <= value a ->
  bind (op_sub (S (S fuel)) a b) (fun r => op_add (S fuel) r b) = Ok a.
Proof.
  intros Ha Hb Sa Sb Hle.
  rewrite (positive_value a Sa), (positive_value b Sb) in Hle.
  destruct (sub_same_sign_spec a b fuel Ha Hb ltac:(congruence))
    as (r & -> & Vr & Or & Nr & _ & Sr).
  specialize (Sr Hle). cbn [bind].
  assert (well_formed r) as Wr.
  { apply well_formed_iff. split; [exact Or|]. split; [exact Nr|].
    intros _. congruence. }
  destruct (add_well_formed_spec r b fuel Wr Hb ltac:(congruence))
    as (r' & -> & Wr' & Vr').
  f_equal. apply well_formed_unique; [exact Wr' | exact Ha | lia].
Qed.

Lemma sub_then_add_round_trip_witness :
  bind (op_sub 2 (BigInteger_int 1000) (BigInteger_int 1))
       (fun r => op_add 1 r (BigInteger_int 1))
  = Ok (BigInteger_int 1000).
Proof.
  apply (sub_then_add_round_trip (BigInteger_int 1000) (BigInteger_int 1) 0);
    solve [reflexivity | vm_compute; discriminate].
Defined.

(** ** Text: the constructors from text and [to_string] *)

Lemma to_char_is_char v : is_char (to_char v).
Proof.
  unfold is_char, to_char.
  pose proof (Z.mod_pos_bound (v + 128) 256 ltac:(lia)). lia.
Qed.

Lemma to_char_of_char c : is_char c -> to_char c = c.
Proof. intros H. now apply to_char_small. Qed.

Lemma ascii_of_char_of_ascii a : ascii_of_char (char_of_ascii a) = a.
Proof. destruct a as [[] [] [] [] [] [] [] []]; reflexivity. Qed.

Lemma char_of_ascii_of_char c : is_char c -> char_of_ascii (ascii_of_char c) = c.
Proof.
  intros Hc. unfold is_char in Hc. unfold char_of_ascii, ascii_of_char.
  pose proof (Z.mod_pos_bound c 256 ltac:(lia)) as Hm.
  rewrite N_ascii_embedding by lia. rewrite Z2N.id by lia.
  unfold to_char.
  destruct (Z_lt_le_dec c 0) as [Hneg | Hpos].
  - replace (c mod 256) with (c + 256)
      by (apply Z.mod_unique with (q := -1); lia).
    replace ((c + 256 + 128) mod 256) with (c + 128)
      by (apply Z.mod_unique with (q := 1); lia).
    lia.
  - rewrite (Z.mod_small c) by lia. rewrite Z.mod_small by lia. lia.
Qed.

Lemma c_str_chars s : Forall is_char (c_str s) /\ Forall (fun c => c <> 0) (c_str s).
Proof.
  induction s as [|a s [IH1 IH2]]; cbn [c_str]; [split; constructor|].
  destruct (char_of_ascii a =? 0) eqn:E; [split; constructor|].
  apply Z.eqb_neq in E. split; constructor; try assumption.
  apply to_char_is_char.
Qed.

Lemma c_str_text_of l :
  Forall is_char l -> Forall (fun c => c <> 0) l -> c_str (text_of l) = l.
Proof.
  induction l as [|c l IH]; intros Hc Hz; [reflexivity|].
  apply Forall_cons in Hc as [Hc Hcs]. apply Forall_cons in Hz as [Hz Hzs].
  cbn [text_of c_str]. rewrite (char_of_ascii_of_char c Hc).
  replace (c =? 0) with false by (symmetry; now apply Z.eqb_neq).
  now rewrite IH.
Qed.

(** The loop of [parse] appends the characters that are not
    underscores. *)
Lemma parse_loop_spec :
  forall suf pre acc,
    for_up_pure (length suf) (Z.of_nat (length pre))
      (fun i res =>
         let c := default 0 ((pre ++ suf) !! Z.to_nat i) in
         if c =? chr_underscore then res else res ++ [c])
      acc
    = acc ++ without_underscores suf.
Proof.
  induction suf as [|c suf IH]; intros pre acc.
  - cbn. now rewrite app_nil_r.
  - cbn [length for_up_pure]. rewrite Nat2Z.id.
    rewrite list_lookup_middle by reflexivity. cbn [default].
    specialize (IH (pre ++ [c])). rewrite <- app_assoc in IH. cbn [app] in IH.
    rewrite length_app, Nat2Z.inj_add in IH. cbn [length] in IH.
    change (Z.of_nat 1) with 1 in IH. rewrite IH.
    unfold without_underscores. cbn [List.filter]. change (id c) with c.
    destruct (c =? chr_underscore); cbn [negb]; [reflexivity|].
    now rewrite <- app_assoc.
Qed.

Lemma parse_spec this str :
  parse this str
  = if default 0 (str !! 0%nat) =? chr_minus
    then (set_sign this NEGATIVE, without_underscores (tail str))
    else (this, without_underscores str).
Proof.
  unfold parse. destruct str as [|c str]; [reflexivity|].
  cbn [lookup list_lookup default length tail]. change (id c) with c.
  destruct (c =? chr_minus) eqn:E.
  - f_equal.
    replace (Z.to_nat (Z.of_nat (S (length str)) - 1)) with (length str) by lia.
    exact (parse_loop_spec str [c] []).
  - f_equal.
    replace (Z.to_nat (Z.of_nat (S (length str)) - 0)) with (length (c :: str))
      by (cbn [length]; lia).
    exact (parse_loop_spec (c :: str) [] []).
Qed.

(** The loop of the text constructors pushes the kept characters from
    the last one to the first. *)
Lemma text_loop_spec filtered :
  Forall is_char filtered ->
  forall k this,
    (k <= length filtered)%nat ->
    for_down k
      (fun i this =>
         let digit := default 0 (filtered !! Z.to_nat i) - chr_0 in
         push_digit this digit)
      this
    = mkBigInteger (m_sign this) (m_data this ++ rev (take k filtered)).
Proof.
  intros Hc. induction k as [|k IH]; intros this Hk.
  - cbn. rewrite app_nil_r. now destruct this.
  - cbn [for_down]. rewrite Nat2Z.id.
    destruct (lookup_lt_is_Some_2 filtered k ltac:(lia)) as [c Hx].
    rewrite Hx. cbn [default]. change (id c) with c. rewrite IH by lia.
    unfold push_digit. cbn [m_sign m_data].
    replace (c - chr_0 + chr_0) with c by lia.
    rewrite (to_char_of_char c (Forall_lookup_1 _ _ _ _ Hc Hx)).
    rewrite (take_S_r _ _ _ Hx), rev_app_distr. cbn [rev app].
    now rewrite <- app_assoc.
Qed.

Lemma without_underscores_chars l :
  Forall is_char l -> Forall is_char (without_underscores l).
Proof.
  intros H. unfold without_underscores.
  induction H as [|c l Hc Hl IH]; cbn [List.filter]; [constructor|].
  destruct (negb _); [now constructor | exact IH].
Qed.

(** The text constructor in closed form: the sign flag from a leading
    minus sign, and the other characters that are not underscores, last
    one first. *)
Lemma BigInteger_cstr_spec str :
  Forall is_char str ->
  BigInteger_cstr str
  = if default 0 (str !! 0%nat) =? chr_minus
    then mkBigInteger NEGATIVE (rev (without_underscores (tail str)))
    else mkBigInteger POSITIVE (rev (without_underscores str)).
Proof.
  intros Hc. unfold BigInteger_cstr. rewrite parse_spec.
  assert (Forall is_char (tail str)) as Ht
    by (destruct str; [constructor | now apply Forall_cons in Hc as [_ Hc]]).
  destruct (default 0 (str !! 0%nat) =? chr_minus).
  - rewrite (text_loop_spec _ (without_underscores_chars _ Ht)) by lia.
    now rewrite firstn_all.
  - rewrite (text_loop_spec _ (without_underscores_chars _ Hc)) by lia.
    now rewrite firstn_all.
Qed.

Lemma without_underscores_app l1 l2 :
  without_underscores (l1 ++ l2)
  = without_underscores l1 ++ without_underscores l2.
Proof. unfold without_underscores. apply List.filter_app. Qed.

Lemma c_str_underscore pre post :
  without_underscores (c_str (pre +:+ String "_" post))
  = without_underscores (c_str (pre +:+ post)).
Proof.
  induction pre as [|a pre IH].
  - change (EmptyString +:+ String "_" post) with (String "_"%char post).
    change (EmptyString +:+ post) with post. reflexivity.
  - change (String a pre +:+ String "_" post)
      with (String a (pre +:+ String "_" post)).
    change (String a pre +:+ post) with (String a (pre +:+ post)).
    cbn [c_str]. destruct (char_of_ascii a =? 0); [reflexivity|].
    unfold without_underscores in *. cbn [List.filter]. now rewrite IH.
Qed.

(** X22.  An underscore after the first character of a text changes nothing in
    the object built from it. *)
Theorem text_constructor_ignores_underscores (a : ascii) (pre post : string) :
  BigInteger_string (String a (pre +:+ String "_" post))
  = BigInteger_string (String a (pre +:+ post)).
Proof.
  unfold BigInteger_string.
  rewrite !BigInteger_cstr_spec by apply c_str_chars.
  cbn [c_str]. destruct (char_of_ascii a =? 0); [reflexivity|].
  cbn [lookup list_lookup default tail]. change (id (char_of_ascii a)) with (char_of_ascii a).
  unfold without_underscores at 2 4. cbn [List.filter].
  fold (without_underscores (c_str (pre +:+ String "_" post))).
  fold (without_underscores (c_str (pre +:+ post))).
  now rewrite c_str_underscore.
Qed.

(** The loop of [to_string] on stored characters of any kind. *)
Lemma to_string_loop_chars this :
  Forall is_char (m_data this) ->
  forall k res,
    (k <= length (m_data this))%nat ->
    for_down k
      (fun i res => push_back res (to_char (get_digit this i + chr_0))) res
    = res +:+ text_of (rev (take k (m_data this))).
Proof.
  intros Hok. induction k as [|k IH]; intros res Hk.
  - cbn. now rewrite append_empty_r.
  - cbn [for_down].
    destruct (lookup_lt_is_Some_2 (m_data this) k ltac:(lia)) as [c Hc].
    pose proof (Forall_lookup_1 _ _ _ _ Hok Hc) as Hd.
    rewrite (get_digit_lookup _ _ _ Hc), IH by lia.
    replace (c - chr_0 + chr_0) with c by lia.
    rewrite (to_char_of_char c Hd).
    rewrite (take_S_r _ _ _ Hc), rev_app_distr. cbn [rev app text_of].
    unfold push_back. now rewrite append_assoc_text.
Qed.

Lemma to_string_chars this :
  Forall is_char (m_data this) ->
  to_string this =
    let res := (if is_negative this then "-" else "")
               +:+ text_of (rev (m_data this)) in
    if (String.length res =? 0)%nat then "0"%string else res.
Proof.
  intros Hok. unfold to_string.
  rewrite (to_string_loop_chars this Hok) by (unfold count; lia).
  unfold count. rewrite Nat2Z.id, firstn_all.
  destruct (is_negative this); reflexivity.
Qed.

Lemma plain_chars_c_str s :
  plain_chars s = true ->
  text_of (c_str s) = s /\ without_underscores (c_str s) = c_str s.
Proof.
  induction s as [|a s IH]; intros Hp; [split; reflexivity|].
  cbn [plain_chars] in Hp. apply andb_true_iff in Hp as [Hp Hs].
  apply andb_true_iff in Hp as [Hz Hu].
  apply negb_true_iff in Hz, Hu. destruct (IH Hs) as [IH1 IH2].
  cbn [c_str]. rewrite Hz. cbn [text_of].
  rewrite ascii_of_char_of_ascii, IH1. split; [reflexivity|].
  unfold without_underscores in *. cbn [List.filter]. rewrite Hu. cbn [negb].
  now rewrite IH2.
Qed.

(** X23.  Rendering the object built from a text gives the text back, for every
    text with at least one character and no NUL or underscore, whatever
    its characters. *)
Theorem render_after_parse (s : string) :
  plain_text s = true -> to_string (BigInteger_string s) = s.
Proof.
  intros Hp. apply andb_true_iff in Hp as [Hne Hp].
  destruct (plain_chars_c_str s Hp) as [Htext Hfilter].
  destruct (c_str_chars s) as [Hc _].
  unfold BigInteger_string. rewrite (BigInteger_cstr_spec _ Hc).
  destruct s as [|a s]; [discriminate Hne|].
  cbn [plain_chars] in Hp. apply andb_true_iff in Hp as [Ha Hp].
  apply andb_true_iff in Ha as [Hz Hu]. apply negb_true_iff in Hz, Hu.
  destruct (plain_chars_c_str s Hp) as [Htext' Hfilter'].
  cbn [c_str] in *. rewrite Hz in *.
  cbn [lookup list_lookup default tail]. change (id (char_of_ascii a)) with (char_of_ascii a).
  assert (Forall is_char (c_str s)) as Hcs by apply c_str_chars.
  destruct (char_of_ascii a =? chr_minus) eqn:Em.
  - rewrite to_string_chars
      by (cbn [m_data]; apply Forall_rev; now apply without_underscores_chars).
    cbn [is_negative m_sign Sign_eqb m_data]. rewrite rev_involutive, Hfilter', Htext'.
    apply Z.eqb_eq in Em.
    assert (a = "-"%char) as ->
      by (rewrite <- (ascii_of_char_of_ascii a), Em; reflexivity).
    reflexivity.
  - rewrite to_string_chars
      by (cbn [m_data]; apply Forall_rev; now apply without_underscores_chars).
    cbn [is_negative m_sign Sign_eqb m_data]. rewrite rev_involutive, Hfilter.
    cbn [text_of]. rewrite ascii_of_char_of_ascii, Htext'. reflexivity.
Qed.

Lemma render_after_parse_witness :
  to_string (BigInteger_string "-00120") = "-00120"%string.
Proof. apply (render_after_parse "-00120"). reflexivity. Defined.

Lemma digit_is_plain c :
  digit_ok c -> is_char c /\ c <> 0 /\ c <> chr_underscore /\ c <> chr_minus.
Proof. unfold digit_ok, is_char, chr_0, chr_underscore, chr_minus. lia. Qed.

Lemma digits_are_plain l :
  Forall digit_ok l ->
  Forall is_char l /\ Forall (fun c => c <> 0) l /\ without_underscores l = l.
Proof.
  induction l as [|c l IH]; intros Hok; [repeat split; constructor|].
  apply Forall_cons in Hok as [Hc Hok]. destruct (IH Hok) as (H1 & H2 & H3).
  destruct (digit_is_plain c Hc) as (C1 & C2 & C3 & _).
  split; [now constructor|]. split; [now constructor|].
  unfold without_underscores in *. cbn [List.filter].
  replace (c =? chr_underscore) with false by (symmetry; now apply Z.eqb_neq).
  cbn [negb]. now rewrite H3.
Qed.

Lemma c_str_minus t : c_str (String "-" t) = chr_minus :: c_str t.
Proof. reflexivity. Qed.

(** Building an object from the text of a non-zero object that stores
    decimal digits gives the object back. *)
Lemma parse_after_render_spec x :
  digits_ok x -> 0 < count x -> BigInteger_string (to_string x) = x.
Proof.
  intros Hok Hc. rewrite (to_string_shape x Hok).
  apply digits_ok_Forall in Hok. destruct x as [s d].
  unfold count in Hc. cbn [m_data m_sign] in *.
  assert (Forall digit_ok (rev d)) as Hrev by now apply Forall_rev.
  destruct (digits_are_plain (rev d) Hrev) as (R1 & R2 & R3).
  assert (exists c l, rev d = c :: l) as (c & l & Hr).
  { destruct (rev d) as [|c l] eqn:E; [|now eexists _, _].
    apply (f_equal (@length Z)) in E. rewrite length_rev in E.
    cbn [length] in E. lia. }
  unfold BigInteger_string.
  destruct s; cbn [is_negative m_sign Sign_eqb].
  - change (EmptyString +:+ text_of (rev d)) with (text_of (rev d)).
    assert ((String.length (text_of (rev d)) =? 0)%nat = false) as ->
      by (rewrite Hr; reflexivity).
    cbv zeta. rewrite (c_str_text_of _ R1 R2).
    rewrite (BigInteger_cstr_spec _ R1), R3.
    assert ((default 0 (rev d !! 0%nat) =? chr_minus) = false) as ->.
    { rewrite Hr. cbn [lookup list_lookup default]. apply Z.eqb_neq.
      rewrite Hr in Hrev. apply Forall_cons in Hrev as [Hd _].
      now destruct (digit_is_plain c Hd) as (_ & _ & _ & ?). }
    now rewrite rev_involutive.
  - change ("-" +:+ text_of (rev d)) with (String "-"%char (text_of (rev d))).
    cbn [String.length Nat.eqb]. cbv zeta.
    rewrite c_str_minus, (c_str_text_of _ R1 R2).
    rewrite BigInteger_cstr_spec
      by (constructor; [unfold is_char, chr_minus; lia | exact R1]).
    cbn [lookup list_lookup default tail Z.eqb chr_minus Pos.eqb].
    now rewrite R3, rev_involutive.
Qed.

(** X24.  Building an object from the text of a non-zero object that stores
    decimal digits gives the object back. *)
Theorem parse_after_render (x : BigInteger) :
  digits_ok x -> 0 < count x -> BigInteger_string (to_string x) = x.
Proof. exact (parse_after_render_spec x). Qed.

Lemma parse_after_render_witness :
  BigInteger_string (to_string (BigInteger_int (-1200))) = BigInteger_int (-1200).
Proof. apply (parse_after_render (BigInteger_int (-1200))); reflexivity. Defined.

(** X25.  The object built from the canonical decimal text of a non-zero [int]
    other than the most negative one is the object built from the [int]
    itself. *)
Theorem text_of_int_agrees (n : Z) :
  INT_MIN < n <= INT_MAX -> n <> 0 ->
  BigInteger_string (canonical_text n) = BigInteger_int n.
Proof.
  intros Hn Hnz. rewrite <- (int_round_trip n Hn).
  destruct (BigInteger_int_spec n Hn) as (Hv & Hok & _ & _).
  apply parse_after_render_spec; [exact Hok|].
  unfold count. destruct (m_data (BigInteger_int n)) eqn:E; [|cbn [length]; lia].
  exfalso. apply Hnz. rewrite <- Hv. unfold value, magnitude. rewrite E.
  now destruct (m_sign (BigInteger_int n)).
Qed.

Lemma text_of_int_agrees_witness :
  BigInteger_string (canonical_text (-2147483647)) = BigInteger_int (-2147483647).
Proof.
  apply (text_of_int_agrees (-2147483647)).
  - vm_compute. split; [reflexivity | discriminate].
  - lia.
Defined.

(** X26.  [to_string] of a well-formed object is the canonical decimal text of
    the number it stands for. *)
Theorem render_is_canonical (x : BigInteger) :
  well_formed x -> to_string x = canonical_text (value x).
Proof.
  intros Hwf. apply well_formed_iff in Hwf as (Hok & Hn & Hz).
  now apply to_string_canonical.
Qed.

Lemma render_is_canonical_witness :
  to_string (BigInteger_string "-1_000") = canonical_text (value (BigInteger_string "-1_000")).
Proof. apply (render_is_canonical (BigInteger_string "-1_000")). reflexivity. Defined.

(** X27.  The constructor from [int], away from the most negative [int], builds
    a well-formed object that stands for its argument and renders as the
    canonical decimal text of it. *)
Theorem int_constructor_well_formed (n : Z) :
  INT_MIN < n <= INT_MAX ->
  well_formed (BigInteger_int n)
  /\ value (BigInteger_int n) = n
  /\ to_string (BigInteger_int n) = canonical_text n.
Proof.
  intros Hn. destruct (BigInteger_int_spec n Hn) as (Hv & Hok & Hnorm & Hs).
  split; [|split; [exact Hv | now apply int_round_trip]].
  apply well_formed_iff. split; [exact Hok|]. split; [exact Hnorm|].
  intros He. rewrite Hs. destruct (n <? 0) eqn:E; [|reflexivity].
  apply Z.ltb_lt in E. unfold value, magnitude in Hv. rewrite He in Hv.
  cbn [magnitude_of] in Hv. destruct (m_sign (BigInteger_int n)); lia.
Qed.

Lemma int_constructor_well_formed_witness :
  well_formed (BigInteger_int 2147483647)
  /\ value (BigInteger_int 2147483647) = 2147483647
  /\ to_string (BigInteger_int 2147483647) = canonical_text 2147483647.
Proof.
  apply (int_constructor_well_formed 2147483647).
  vm_compute. split; [reflexivity | discriminate].
Defined.

(** X28.  [operator<=] is the negation of [operator>] on all objects. *)
Theorem op_le_is_not_gt (a b : BigInteger) :
  op_le a b = negb (op_gt a b).
Proof.
  unfold op_le.
  destruct (less_than_trichotomy a b)
    as [(H1 & H2 & H3) | [(H1 & H2 & H3) | (H1 & H2 & H3)]];
    now rewrite H1, H2, H3.
Qed.

(** X29.  Multiplication by an [int] from 1 to 10 keeps the invariants of the
    class, for either sign. *)
Theorem scalar_multiply_keeps_well_formed (a : BigInteger) (n : Z) (fuel : nat) :
  well_formed a -> 0 < n <= 10 ->
  exists r,
    op_mul_int (S fuel) a n = Ok r
    /\ well_formed r
    /\ value r = n * value a.
Proof.
  intros Hwf Hn. unfold op_mul_int. rewrite op_mul_int_assign_S.
  replace (n =? 0) with false by (symmetry; apply Z.eqb_neq; lia).
  destruct (n =? 1) eqn:E1.
  - apply Z.eqb_eq in E1. subst n. exists a.
    split; [reflexivity|]. split; [exact Hwf | lia].
  - apply Z.eqb_neq in E1.
    replace ((BASE <? n) || (n <? 0)) with false.
    2:{ symmetry. apply orb_false_iff. split; apply Z.ltb_ge; unfold BASE; lia. }
    destruct (scale_well_formed_spec a n Hwf ltac:(lia)) as (r & -> & Wr & Sr & Mr).
    exists r. split; [reflexivity|]. split; [exact Wr|].
    unfold value. rewrite Sr, Mr. destruct (m_sign a); lia.
Qed.

Lemma scalar_multiply_keeps_well_formed_witness :
  exists r,
    op_mul_int 1 (BigInteger_int (-999)) 10 = Ok r
    /\ well_formed r
    /\ value r = 10 * value (BigInteger_int (-999)).
Proof.
  apply (scalar_multiply_keeps_well_formed (BigInteger_int (-999)) 10 0);
    [reflexivity | lia].
Defined.

(** X30.  Multiplication of a POSITIVE object that stores decimal digits by an
    [int] that is negative or above 10 (the most negative [int] apart):
    the promotion to a BigInteger returns within three levels with [n]
    times the number. *)
Theorem scalar_multiply_promoted (a : BigInteger) (n : Z) (fuel : nat) :
  m_sign a = POSITIVE -> digits_ok a ->
  INT_MIN < n <= INT_MAX -> n < 0 \/ 10 < n ->
  exists r,
    op_mul_int (S (S (S fuel))) a n = Ok r
    /\ value r = n * value a
    /\ digits_ok r.
Proof.
  intros Sa Ha Hr Hn. unfold op_mul_int. rewrite op_mul_int_assign_S.
  replace (n =? 0) with false by (symmetry; apply Z.eqb_neq; lia).
  replace (n =? 1) with false by (symmetry; apply Z.eqb_neq; lia).
  replace ((BASE <? n) || (n <? 0)) with true.
  2:{ symmetry. apply orb_true_iff. unfold BASE.
      destruct Hn; [right; apply Z.ltb_lt | left; apply Z.ltb_lt]; lia. }
  destruct (BigInteger_int_spec n Hr) as (Hv & Hok & _ & _).
  destruct (mul_positive_left_spec a (BigInteger_int n) fuel Sa Ha Hok)
    as (r & Er & Vr & _ & Or).
  unfold op_mul in Er. exists r. split; [exact Er|]. split; [|exact Or].
  rewrite Vr, Hv. lia.
Qed.

Lemma scalar_multiply_promoted_witness :
  exists r,
    op_mul_int 3 (BigInteger_int 999) (-12) = Ok r
    /\ value r = -12 * value (BigInteger_int 999)
    /\ digits_ok r.
Proof.
  apply (scalar_multiply_promoted (BigInteger_int 999) (-12) 0).
  - reflexivity.
  - reflexivity.
  - vm_compute. split; [reflexivity | discriminate].
  - left. lia.
Defined.
